(** * tnp_tools: the closed-form fit shapes [RooModDSCB] and [RooGaussBern]

    The two [evaluate()] members of [src/lib/RooModDSCB.cc] and
    [src/lib/RooGaussBern.cc] are embedded as functions over the reals.

    Reading of the C++ types:
    - [Double_t] is read as a real number and [+ - * /] as the exact
      operations.  Rounding, overflow, infinities and NaN are outside this
      reading; every statement below is a statement about the exact values.
    - [a < b] on [Double_t] is the decision [Rlt_dec a b].
    - [fabs] is [Rabs], [exp] is [exp].
    - [Int_t] loop counters are natural numbers ([getSize()] is the length
      of the coefficient list), [static_cast<double>(i)] is [INR i].
    - the proxies of a shape ([RooRealProxy], [RooListProxy]) are the fields
      of a record holding their current values; [x.min()], [x.max()] are two
      more fields of it. *)

From Stdlib Require Import Reals Lra Lia List.
Import ListNotations.

Open Scope R_scope.

(** ** [TMath::Power] *)

Module TMath.

(** [Some k] when [y] is the integer [k]. *)
Definition integral (y : R) : option Z :=
  if Req_dec_T y (IZR (Int_part y)) then Some (Int_part y) else None.

(** [TMath::Power(x, y)] is C's [pow(x, y)].  On a positive base it is
    [exp (y * ln x)]; on any base and an integral exponent it is the
    integer power (so [pow(x, 0) = 1] and [pow(0, k) = 0] for [k > 0]).
    Where C's [pow] has no real value (a base [<= 0] with a fractional
    exponent, or [0] to a negative power) the value here is [0]; the proofs
    below go through [Power_INR] and [Power_pos] only, so none depends on
    that choice. *)
Definition Power (x y : R) : R :=
  if Rlt_dec 0 x then Rpower x y
  else match integral y with
       | Some k => powerRZ x k
       | None => 0
       end.

End TMath.

(** ** [RooModDSCB]: Gaussian core with two-component power-law tails *)

Module RooModDSCB.

Record t : Type := mk {
  x : R;
  x0 : R;
  sigmaL : R;
  sigmaR : R;
  alphaL : R;
  nL1 : R;
  nL2 : R;
  fL : R;
  alphaR : R;
  nR1 : R;
  nR2 : R;
  fR : R
}.

(** Body of the first branch of [evaluate] (left power law region), as a
    function of the proxies it reads and of [left_sigma]. *)
Definition left_power_law (nL1 nL2 fL alphaL left_sigma : R) : R :=
  let nL2_eff := if Rlt_dec nL2 nL1 then nL1 else nL2 in
  let abs_alpha := Rabs alphaL in
  let BL1 := nL1 / abs_alpha - abs_alpha in
  let BL2 := nL2_eff / abs_alpha - abs_alpha in
  let AL1 := TMath.Power (nL1 / abs_alpha) nL1
             * exp (-0.5 * abs_alpha * abs_alpha) in
  let AL2 := TMath.Power (nL2_eff / abs_alpha) nL2_eff
             * exp (-0.5 * abs_alpha * abs_alpha) in
  let power_law1 := AL1 * TMath.Power (BL1 - left_sigma) (-1.0 * nL1) in
  let power_law2 := AL2 * TMath.Power (BL2 - left_sigma) (-1.0 * nL2_eff) in
  fL * power_law1 + (1.0 - fL) * power_law2.

(** Body of the last branch of [evaluate] (right power law region). *)
Definition right_power_law (nR1 nR2 fR alphaR right_sigma : R) : R :=
  let nR2_eff := if Rlt_dec nR2 nR1 then nR1 else nR2 in
  let abs_alpha := Rabs alphaR in
  let BR1 := nR1 / abs_alpha - abs_alpha in
  let BR2 := nR2_eff / abs_alpha - abs_alpha in
  let AR1 := TMath.Power (nR1 / abs_alpha) nR1
             * exp (-0.5 * abs_alpha * abs_alpha) in
  let AR2 := TMath.Power (nR2_eff / abs_alpha) nR2_eff
             * exp (-0.5 * abs_alpha * abs_alpha) in
  let power_law1 := AR1 * TMath.Power (BR1 + right_sigma) (-1.0 * nR1) in
  let power_law2 := AR2 * TMath.Power (BR2 + right_sigma) (-1.0 * nR2_eff) in
  fR * power_law1 + (1.0 - fR) * power_law2.

(** [Double_t RooModDSCB::evaluate() const]. *)
Definition evaluate (self : t) : R :=
  let left_sigma := (x self - x0 self) / sigmaL self in
  let right_sigma := (x self - x0 self) / sigmaR self in
  if Rlt_dec left_sigma (-1.0 * alphaL self) then
    left_power_law (nL1 self) (nL2 self) (fL self) (alphaL self) left_sigma
  else if Rlt_dec left_sigma 0 then
    let exp_arg := (x self - x0 self) / sigmaL self in
    exp (-0.5 * exp_arg * exp_arg)
  else if Rlt_dec right_sigma (alphaR self) then
    let exp_arg := (x self - x0 self) / sigmaR self in
    exp (-0.5 * exp_arg * exp_arg)
  else
    right_power_law (nR1 self) (nR2 self) (fR self) (alphaR self) right_sigma.

(** The four regions the branches of [evaluate] stand for. *)
Inductive region : Type := LeftTail | CoreLeft | CoreRight | RightTail.

(** The conditions of the [if]/[else if] chain of [evaluate], alone. *)
Definition classify (self : t) : region :=
  let left_sigma := (x self - x0 self) / sigmaL self in
  let right_sigma := (x self - x0 self) / sigmaR self in
  if Rlt_dec left_sigma (-1.0 * alphaL self) then LeftTail
  else if Rlt_dec left_sigma 0 then CoreLeft
  else if Rlt_dec right_sigma (alphaR self) then CoreRight
  else RightTail.

(** The same shape with the observable moved to [v]. *)
Definition at_x (self : t) (v : R) : t :=
  mk v (x0 self) (sigmaL self) (sigmaR self) (alphaL self)
     (nL1 self) (nL2 self) (fL self)
     (alphaR self) (nR1 self) (nR2 self) (fR self).

(** The same shape with [nL2] set to [v]. *)
Definition with_nL2 (self : t) (v : R) : t :=
  mk (x self) (x0 self) (sigmaL self) (sigmaR self) (alphaL self)
     (nL1 self) v (fL self)
     (alphaR self) (nR1 self) (nR2 self) (fR self).

(** The same shape with [nR2] set to [v]. *)
Definition with_nR2 (self : t) (v : R) : t :=
  mk (x self) (x0 self) (sigmaL self) (sigmaR self) (alphaL self)
     (nL1 self) (nL2 self) (fL self)
     (alphaR self) (nR1 self) v (fR self).

(** The shape [x0=0, sigmaL=sigmaR=1, alphaL=alphaR=1,
    nL1=nL2=nR1=nR2=2, fL=fR=1], read at [x = v]. *)
Definition unit_shape (v : R) : t := mk v 0 1 1 1 2 2 1 1 2 2 1.

End RooModDSCB.

(** ** [RooGaussBern]: Gaussian core with Bernstein-polynomial tails *)

Module RooGaussBern.

Record t : Type := mk {
  x : R;
  x_min : R;  (* x.min() *)
  x_max : R;  (* x.max() *)
  x0 : R;
  sigma : R;
  alphaL : R;
  alphaR : R;
  bernCoefsL : list R;
  bernCoefsR : list R
}.

(** One pass of the body of the left [for] loop: [rval += term_coef * ...]. *)
Definition left_step (bernCoefsL : list R) (bern_order : nat)
    (coef0 x_scaled : R) (rval : R) (i : nat) : R :=
  let powone := INR i in
  let powtwo := INR (bern_order - i) in
  let term_coef :=
    if (i <? bern_order)%nat then coef0 * nth i bernCoefsL 0 else coef0 in
  rval + term_coef
         * TMath.Power x_scaled powone
         * TMath.Power (1.0 - x_scaled) powtwo.

(** One pass of the body of the right [for] loop. *)
Definition right_step (bernCoefsR : list R) (bern_order : nat)
    (coef0 x_scaled : R) (rval : R) (i : nat) : R :=
  let powone := INR i in
  let powtwo := INR (bern_order - i) in
  let term_coef :=
    if (0 <? i)%nat then coef0 * nth (i - 1) bernCoefsR 0 else coef0 in
  rval + term_coef
         * TMath.Power x_scaled powone
         * TMath.Power (1.0 - x_scaled) powtwo.

(** The left polynomial region from [bern_order] on: the loop
    [for (i = 0; i <= bern_order; i++)] run on [rval = 0.0]. *)
Definition left_polynomial (bernCoefsL : list R) (alphaL x_scaled : R) : R :=
  let bern_order := length bernCoefsL in
  let coef0 := exp (-0.5 * alphaL * alphaL) in
  fold_left (left_step bernCoefsL bern_order coef0 x_scaled)
            (seq 0 (S bern_order)) 0.0.

(** The right polynomial region from [bern_order] on. *)
Definition right_polynomial (bernCoefsR : list R) (alphaR x_scaled : R) : R :=
  let bern_order := length bernCoefsR in
  let coef0 := exp (-0.5 * alphaR * alphaR) in
  fold_left (right_step bernCoefsR bern_order coef0 x_scaled)
            (seq 0 (S bern_order)) 0.0.

(** [x_scaled] of the left polynomial region. *)
Definition left_x_scaled (self : t) : R :=
  let low_edge := x_min self in
  let boundary := x0 self - alphaL self * sigma self in
  (x self - low_edge) / (boundary - low_edge).

(** [x_scaled] of the right polynomial region. *)
Definition right_x_scaled (self : t) : R :=
  let high_edge := x_max self in
  let boundary := x0 self + alphaR self * sigma self in
  (x self - boundary) / (high_edge - boundary).

(** [Double_t RooGaussBern::evaluate() const]. *)
Definition evaluate (self : t) : R :=
  let norm_dist := (x self - x0 self) / sigma self in
  if Rlt_dec norm_dist (-1.0 * alphaL self) then
    left_polynomial (bernCoefsL self) (alphaL self) (left_x_scaled self)
  else if Rlt_dec norm_dist (alphaR self) then
    let exp_arg := (x self - x0 self) / sigma self in
    exp (-0.5 * exp_arg * exp_arg)
  else
    right_polynomial (bernCoefsR self) (alphaR self) (right_x_scaled self).

(** The three regions the branches of [evaluate] stand for. *)
Inductive region : Type := LeftTail | Core | RightTail.

(** The conditions of the [if]/[else if] chain of [evaluate], alone. *)
Definition classify (self : t) : region :=
  let norm_dist := (x self - x0 self) / sigma self in
  if Rlt_dec norm_dist (-1.0 * alphaL self) then LeftTail
  else if Rlt_dec norm_dist (alphaR self) then Core
  else RightTail.

(** The same shape with the observable moved to [v]. *)
Definition at_x (self : t) (v : R) : t :=
  mk v (x_min self) (x_max self) (x0 self) (sigma self)
     (alphaL self) (alphaR self) (bernCoefsL self) (bernCoefsR self).

(** The same shape with the coefficient lists set to [cl] and [cr]. *)
Definition with_coefs (self : t) (cl cr : list R) : t :=
  mk (x self) (x_min self) (x_max self) (x0 self) (sigma self)
     (alphaL self) (alphaR self) cl cr.

(** The shape [x0=0, sigma=1, alphaL=alphaR=1.5] on the domain [[-5,5]],
    with coefficient lists [cl], [cr], read at [x = v]. *)
Definition unit_shape (cl cr : list R) (v : R) : t :=
  mk v (-5) 5 0 1 1.5 1.5 cl cr.

End RooGaussBern.

(** ** The Bernstein tail as the specification words it (section 4.4)

    These definitions follow the specification, not the code: the sum over
    the basis index [i = 0..m] of [termCoef i * u^i * (1-u)^(m-i)].  They
    are compared with the loops of [RooGaussBern::evaluate] below. *)

Module BernsteinSpec.

(** Left tail: the explicit coefficients occupy the indices [0..m-1], the
    index [m] has the coefficient [coef0] alone. *)
Definition termCoef_left (coef0 : R) (coefs : list R) (i : nat) : R :=
  if (i <? length coefs)%nat then coef0 * nth i coefs 0 else coef0.

(** Right tail: the index [0] has the coefficient [coef0] alone, the
    explicit coefficients occupy the indices [1..m]. *)
Definition termCoef_right (coef0 : R) (coefs : list R) (i : nat) : R :=
  match i with
  | O => coef0
  | S j => coef0 * nth j coefs 0
  end.

Definition coef0 (alpha : R) : R := exp (-0.5 * alpha ^ 2).

Definition tail_sum (termCoef : nat -> R) (m : nat) (u : R) : R :=
  sum_f_R0 (fun i => termCoef i * u ^ i * (1 - u) ^ (m - i)) m.

Definition left_tail (coefs : list R) (alpha u : R) : R :=
  tail_sum (termCoef_left (coef0 alpha) coefs) (length coefs) u.

Definition right_tail (coefs : list R) (alpha u : R) : R :=
  tail_sum (termCoef_right (coef0 alpha) coefs) (length coefs) u.

End BernsteinSpec.

(** ** Changes of parameters of [RooModDSCB] *)

Module DSCBMaps.

Import RooModDSCB.



(** Observable and centre moved by [d] together. *)
Definition translate (self : t) (d : R) : t :=
  mk (x self + d) (x0 self + d) (sigmaL self) (sigmaR self) (alphaL self)
     (nL1 self) (nL2 self) (fL self)
     (alphaR self) (nR1 self) (nR2 self) (fR self).

(** Distance to the centre and both widths multiplied by [k]. *)
Definition rescale (self : t) (k : R) : t :=
  mk (x0 self + k * (x self - x0 self)) (x0 self)
     (k * sigmaL self) (k * sigmaR self) (alphaL self)
     (nL1 self) (nL2 self) (fL self)
     (alphaR self) (nR1 self) (nR2 self) (fR self).

(** Observable reflected about [x0], left and right parameters swapped. *)
Definition mirror (self : t) : t :=
  mk (x0 self - (x self - x0 self)) (x0 self)
     (sigmaR self) (sigmaL self) (alphaR self)
     (nR1 self) (nR2 self) (fR self)
     (alphaL self) (nL1 self) (nL2 self) (fL self).

End DSCBMaps.

(** ** Changes of parameters of [RooGaussBern] *)

Module GaussBernMaps.

Import RooGaussBern.

(** Observable, domain edges and centre moved by [d] together. *)
Definition translate (self : t) (d : R) : t :=
  mk (x self + d) (x_min self + d) (x_max self + d) (x0 self + d)
     (sigma self) (alphaL self) (alphaR self)
     (bernCoefsL self) (bernCoefsR self).

End GaussBernMaps.

(** * Facts about [TMath::Power] *)

Lemma integral_INR (n : nat) : TMath.integral (INR n) = Some (Z.of_nat n).
Proof.
  unfold TMath.integral.
  rewrite Int_part_INR, <- INR_IZR_INZ.
  destruct (Req_dec_T (INR n) (INR n)) as [_ | H]; [reflexivity | now elim H].
Qed.

(** On the exponents [static_cast<double>(i)] of the Bernstein loops,
    [TMath::Power] is the integer power, whatever the base. *)
Lemma Power_INR (b : R) (n : nat) : TMath.Power b (INR n) = b ^ n.
Proof.
  unfold TMath.Power.
  destruct (Rlt_dec 0 b) as [Hb | Hb].
  - now apply Rpower_pow.
  - rewrite integral_INR. symmetry. apply pow_powerRZ.
Qed.

(** On a positive base, [TMath::Power] is [exp (y * ln x)]. *)
Lemma Power_pos (b y : R) : 0 < b -> TMath.Power b y = Rpower b y.
Proof.
  intros Hb. unfold TMath.Power.
  destruct (Rlt_dec 0 b); [reflexivity | contradiction].
Qed.

(** * The decimal literals of the sources *)

Lemma literal_one : 1.0 = 1.
Proof. lra. Qed.

(** The argument of the Gaussian, [-0.5*exp_arg*exp_arg], is [-0.5 z^2]. *)
Lemma gauss_arg (z : R) : -0.5 * z * z = -0.5 * z ^ 2.
Proof. simpl. lra. Qed.

(** * Division by a positive width *)

Lemma div_lt_iff (n s k : R) : 0 < s -> (n / s < k <-> n < k * s).
Proof.
  intros Hs.
  assert (E : n = n / s * s) by (field; lra).
  split; intros H.
  - rewrite E. now apply Rmult_lt_compat_r.
  - apply Rmult_lt_reg_r with s; [assumption | now rewrite <- E].
Qed.

(** A quotient [n / d] with [0 <= n <= d] and [0 < d] lies in [[0,1]]. *)
Lemma div_unit_interval (n d : R) : 0 <= n <= d -> 0 < d -> 0 <= n / d <= 1.
Proof.
  intros [H0 H1] Hd.
  pose proof (Rinv_0_lt_compat d Hd) as Hi.
  pose proof (Rinv_r d ltac:(lra)) as Hr.
  unfold Rdiv. split; nra.
Qed.

(** * [RooModDSCB]: region classification *)

(** C1. [RooModDSCB::evaluate] takes the left power-law branch when
    [(x-x0)/sigmaL < -alphaL]; otherwise the Gaussian of width [sigmaL] when
    [(x-x0)/sigmaL < 0]; otherwise the Gaussian of width [sigmaR] when
    [(x-x0)/sigmaR < alphaR]; otherwise the right power-law branch.  Each
    Gaussian branch returns [exp (-0.5 z^2)] for the [z] of its side. *)
Theorem C1_DSCB_evaluate_dispatch (self : RooModDSCB.t) :
  let zL := (RooModDSCB.x self - RooModDSCB.x0 self) / RooModDSCB.sigmaL self in
  let zR := (RooModDSCB.x self - RooModDSCB.x0 self) / RooModDSCB.sigmaR self in
  (zL < - RooModDSCB.alphaL self ->
     RooModDSCB.classify self = RooModDSCB.LeftTail /\
     RooModDSCB.evaluate self =
       RooModDSCB.left_power_law
         (RooModDSCB.nL1 self) (RooModDSCB.nL2 self) (RooModDSCB.fL self)
         (RooModDSCB.alphaL self) zL) /\
  (~ zL < - RooModDSCB.alphaL self -> zL < 0 ->
     RooModDSCB.classify self = RooModDSCB.CoreLeft /\
     RooModDSCB.evaluate self = exp (-0.5 * zL ^ 2)) /\
  (~ zL < - RooModDSCB.alphaL self -> ~ zL < 0 ->
   zR < RooModDSCB.alphaR self ->
     RooModDSCB.classify self = RooModDSCB.CoreRight /\
     RooModDSCB.evaluate self = exp (-0.5 * zR ^ 2)) /\
  (~ zL < - RooModDSCB.alphaL self -> ~ zL < 0 ->
   ~ zR < RooModDSCB.alphaR self ->
     RooModDSCB.classify self = RooModDSCB.RightTail /\
     RooModDSCB.evaluate self =
       RooModDSCB.right_power_law
         (RooModDSCB.nR1 self) (RooModDSCB.nR2 self) (RooModDSCB.fR self)
         (RooModDSCB.alphaR self) zR).
Proof.
  intros zL zR.
  unfold RooModDSCB.classify, RooModDSCB.evaluate.
  fold zL zR. rewrite !gauss_arg.
  destruct (Rlt_dec zL (-1.0 * RooModDSCB.alphaL self)) as [A | A];
    [| destruct (Rlt_dec zL 0) as [B | B];
       [| destruct (Rlt_dec zR (RooModDSCB.alphaR self)) as [C | C]]];
    repeat split; intros; try reflexivity; exfalso; lra.
Qed.

Lemma C1_DSCB_evaluate_dispatch_witness :
  RooModDSCB.classify (RooModDSCB.unit_shape (-5)) = RooModDSCB.LeftTail /\
  RooModDSCB.classify (RooModDSCB.unit_shape (-0.5)) = RooModDSCB.CoreLeft /\
  RooModDSCB.classify (RooModDSCB.unit_shape 0.5) = RooModDSCB.CoreRight /\
  RooModDSCB.classify (RooModDSCB.unit_shape 5) = RooModDSCB.RightTail.
Proof.
  repeat split.
  - apply (C1_DSCB_evaluate_dispatch (RooModDSCB.unit_shape (-5))).
    simpl. lra.
  - apply (C1_DSCB_evaluate_dispatch (RooModDSCB.unit_shape (-0.5)));
      simpl; lra.
  - apply (C1_DSCB_evaluate_dispatch (RooModDSCB.unit_shape 0.5));
      simpl; lra.
  - apply (C1_DSCB_evaluate_dispatch (RooModDSCB.unit_shape 5));
      simpl; lra.
Defined.

(** * [RooModDSCB]: the power-law tails *)

(** The clamp [if (n2 < n1) n2_eff = n1] is the maximum of the pair. *)
Lemma n2_eff_Rmax (n1 n2 : R) :
  (if Rlt_dec n2 n1 then n1 else n2) = Rmax n1 n2.
Proof.
  unfold Rmax.
  destruct (Rlt_dec n2 n1), (Rle_dec n1 n2); try reflexivity; lra.
Qed.

(** One power-law component at the junction: [A * (n/a)^(-n)] is the
    Gaussian factor of [A]. *)
Lemma component_at_junction (n a base : R) :
  0 < n -> 0 < a -> base = n / a ->
  TMath.Power (n / a) n * exp (-0.5 * a * a) * TMath.Power base (-1.0 * n)
  = exp (-0.5 * a * a).
Proof.
  intros Hn Ha ->.
  assert (Hq : 0 < n / a) by now apply Rdiv_lt_0_compat.
  rewrite !Power_pos by assumption.
  replace (-1.0 * n) with (- n) by lra.
  rewrite Rpower_Ropp.
  assert (Hp : 0 < Rpower (n / a) n) by apply exp_pos.
  field. lra.
Qed.

Lemma left_power_law_junction (n1 n2 f alpha : R) :
  0 < alpha -> 0 < n1 ->
  RooModDSCB.left_power_law n1 n2 f alpha (- alpha)
  = exp (-0.5 * alpha * alpha).
Proof.
  intros Ha Hn. unfold RooModDSCB.left_power_law.
  rewrite n2_eff_Rmax, (Rabs_pos_eq alpha) by lra.
  assert (Hm : 0 < Rmax n1 n2).
  { apply Rlt_le_trans with n1; [assumption | apply Rmax_l]. }
  rewrite !component_at_junction; try assumption; lra.
Qed.

Lemma right_power_law_junction (n1 n2 f alpha : R) :
  0 < alpha -> 0 < n1 ->
  RooModDSCB.right_power_law n1 n2 f alpha alpha
  = exp (-0.5 * alpha * alpha).
Proof.
  intros Ha Hn. unfold RooModDSCB.right_power_law.
  rewrite n2_eff_Rmax, (Rabs_pos_eq alpha) by lra.
  assert (Hm : 0 < Rmax n1 n2).
  { apply Rlt_le_trans with n1; [assumption | apply Rmax_l]. }
  rewrite !component_at_junction; try assumption; lra.
Qed.

(** C3. For [alpha > 0] and [n1 > 0] (so that [max n1 n2 > 0] as well) and
    any [n2] and mixing fraction [f], the blended power-law expression of the
    left branch at [z = -alpha], and that of the right branch at
    [z = alpha], equal [exp (-0.5 alpha^2)], the value of the Gaussian core
    at the junction. *)
Theorem C3_power_law_junction_value (alpha n1 n2 f : R) :
  0 < alpha -> 0 < n1 ->
  RooModDSCB.left_power_law n1 n2 f alpha (- alpha)
    = exp (-0.5 * alpha ^ 2) /\
  RooModDSCB.right_power_law n1 n2 f alpha alpha
    = exp (-0.5 * alpha ^ 2).
Proof.
  intros Ha Hn. rewrite <- gauss_arg. split.
  - now apply left_power_law_junction.
  - now apply right_power_law_junction.
Qed.

Lemma C3_power_law_junction_value_witness :
  RooModDSCB.left_power_law 2 3 0.25 1 (- 1) = exp (-0.5 * 1 ^ 2) /\
  RooModDSCB.right_power_law 2 3 0.25 1 1 = exp (-0.5 * 1 ^ 2).
Proof. apply (C3_power_law_junction_value 1 2 3 0.25); lra. Defined.

(** The power-law branches read [n2] through [max n1 n2] only. *)
Lemma left_power_law_Rmax (n1 n2 f alpha z : R) :
  RooModDSCB.left_power_law n1 n2 f alpha z
  = RooModDSCB.left_power_law n1 (Rmax n1 n2) f alpha z.
Proof.
  unfold RooModDSCB.left_power_law.
  rewrite !n2_eff_Rmax, (Rmax_right n1 (Rmax n1 n2)) by apply Rmax_l.
  reflexivity.
Qed.

Lemma right_power_law_Rmax (n1 n2 f alpha z : R) :
  RooModDSCB.right_power_law n1 n2 f alpha z
  = RooModDSCB.right_power_law n1 (Rmax n1 n2) f alpha z.
Proof.
  unfold RooModDSCB.right_power_law.
  rewrite !n2_eff_Rmax, (Rmax_right n1 (Rmax n1 n2)) by apply Rmax_l.
  reflexivity.
Qed.

Lemma evaluate_with_nL2_Rmax (self : RooModDSCB.t) (v : R) :
  RooModDSCB.evaluate (RooModDSCB.with_nL2 self v)
  = RooModDSCB.evaluate
      (RooModDSCB.with_nL2 self (Rmax (RooModDSCB.nL1 self) v)).
Proof.
  unfold RooModDSCB.evaluate, RooModDSCB.with_nL2. simpl.
  now rewrite left_power_law_Rmax.
Qed.

Lemma evaluate_with_nR2_Rmax (self : RooModDSCB.t) (v : R) :
  RooModDSCB.evaluate (RooModDSCB.with_nR2 self v)
  = RooModDSCB.evaluate
      (RooModDSCB.with_nR2 self (Rmax (RooModDSCB.nR1 self) v)).
Proof.
  unfold RooModDSCB.evaluate, RooModDSCB.with_nR2. simpl.
  now rewrite right_power_law_Rmax.
Qed.

Lemma with_nL2_same (self : RooModDSCB.t) :
  RooModDSCB.with_nL2 self (RooModDSCB.nL2 self) = self.
Proof. now destruct self. Qed.

Lemma with_nR2_same (self : RooModDSCB.t) :
  RooModDSCB.with_nR2 self (RooModDSCB.nR2 self) = self.
Proof. now destruct self. Qed.

(** C4. On either side, when [n2 < n1], [RooModDSCB::evaluate] returns the
    value it returns with that side's [n2] replaced by [n1]; and two values
    of [n2] with the same [max n1 n2] give the same result. *)
Theorem C4_n2_clamped (self : RooModDSCB.t) :
  (RooModDSCB.nL2 self < RooModDSCB.nL1 self ->
     RooModDSCB.evaluate (RooModDSCB.with_nL2 self (RooModDSCB.nL1 self))
     = RooModDSCB.evaluate self) /\
  (RooModDSCB.nR2 self < RooModDSCB.nR1 self ->
     RooModDSCB.evaluate (RooModDSCB.with_nR2 self (RooModDSCB.nR1 self))
     = RooModDSCB.evaluate self) /\
  (forall a b : R,
     Rmax (RooModDSCB.nL1 self) a = Rmax (RooModDSCB.nL1 self) b ->
     RooModDSCB.evaluate (RooModDSCB.with_nL2 self a)
     = RooModDSCB.evaluate (RooModDSCB.with_nL2 self b)) /\
  (forall a b : R,
     Rmax (RooModDSCB.nR1 self) a = Rmax (RooModDSCB.nR1 self) b ->
     RooModDSCB.evaluate (RooModDSCB.with_nR2 self a)
     = RooModDSCB.evaluate (RooModDSCB.with_nR2 self b)).
Proof.
  assert (HL : forall a b : R,
     Rmax (RooModDSCB.nL1 self) a = Rmax (RooModDSCB.nL1 self) b ->
     RooModDSCB.evaluate (RooModDSCB.with_nL2 self a)
     = RooModDSCB.evaluate (RooModDSCB.with_nL2 self b)).
  { intros a b E.
    now rewrite (evaluate_with_nL2_Rmax self a),
                (evaluate_with_nL2_Rmax self b), E. }
  assert (HR : forall a b : R,
     Rmax (RooModDSCB.nR1 self) a = Rmax (RooModDSCB.nR1 self) b ->
     RooModDSCB.evaluate (RooModDSCB.with_nR2 self a)
     = RooModDSCB.evaluate (RooModDSCB.with_nR2 self b)).
  { intros a b E.
    now rewrite (evaluate_with_nR2_Rmax self a),
                (evaluate_with_nR2_Rmax self b), E. }
  repeat split; try assumption.
  - intros Hlt. rewrite <- (with_nL2_same self) at 3. apply HL.
    rewrite Rmax_left by lra. rewrite Rmax_left by lra. reflexivity.
  - intros Hlt. rewrite <- (with_nR2_same self) at 3. apply HR.
    rewrite Rmax_left by lra. rewrite Rmax_left by lra. reflexivity.
Qed.

Lemma C4_n2_clamped_witness :
  let p := RooModDSCB.mk (-5) 0 1 1 1 3 2 0.5 1 3 2 0.5 in
  RooModDSCB.evaluate (RooModDSCB.with_nL2 p 3) = RooModDSCB.evaluate p /\
  RooModDSCB.evaluate (RooModDSCB.with_nR2 p 3) = RooModDSCB.evaluate p.
Proof.
  intros p. destruct (C4_n2_clamped p) as (HL & HR & _).
  split.
  - apply HL. simpl. lra.
  - apply HR. simpl. lra.
Defined.

(** * [RooModDSCB]: boundary samples *)

(** C2, as the code has it.  For both shapes and every value of the other
    parameters, a sample with [(x-x0)/sigma = alphaR] is not classified into
    the Gaussian core of that side, and a sample with
    [(x-x0)/sigma = -alphaL] is not classified into the left tail: the
    left-tail test is the strict [z < -alphaL].  With [alphaL, alphaR > 0]
    (and positive widths for [RooModDSCB]) the former is in the right tail
    and the latter in the Gaussian core. *)
Theorem C2_boundary_samples :
  (forall self : RooModDSCB.t,
     let zL := (RooModDSCB.x self - RooModDSCB.x0 self)
               / RooModDSCB.sigmaL self in
     let zR := (RooModDSCB.x self - RooModDSCB.x0 self)
               / RooModDSCB.sigmaR self in
     (zR = RooModDSCB.alphaR self ->
      RooModDSCB.classify self <> RooModDSCB.CoreRight) /\
     (zL = - RooModDSCB.alphaL self ->
      RooModDSCB.classify self <> RooModDSCB.LeftTail) /\
     (0 < RooModDSCB.sigmaL self -> 0 < RooModDSCB.sigmaR self ->
      0 < RooModDSCB.alphaL self -> 0 < RooModDSCB.alphaR self ->
      (zR = RooModDSCB.alphaR self ->
       RooModDSCB.classify self = RooModDSCB.RightTail) /\
      (zL = - RooModDSCB.alphaL self ->
       RooModDSCB.classify self = RooModDSCB.CoreLeft))) /\
  (forall self : RooGaussBern.t,
     let z := (RooGaussBern.x self - RooGaussBern.x0 self)
              / RooGaussBern.sigma self in
     (z = RooGaussBern.alphaR self ->
      RooGaussBern.classify self <> RooGaussBern.Core) /\
     (z = - RooGaussBern.alphaL self ->
      RooGaussBern.classify self <> RooGaussBern.LeftTail) /\
     (0 < RooGaussBern.alphaL self -> 0 < RooGaussBern.alphaR self ->
      (z = RooGaussBern.alphaR self ->
       RooGaussBern.classify self = RooGaussBern.RightTail) /\
      (z = - RooGaussBern.alphaL self ->
       RooGaussBern.classify self = RooGaussBern.Core))).
Proof.
  split.
  - intros self zL zR. unfold RooModDSCB.classify. fold zL zR.
    split; [| split].
    + intros E.
      destruct (Rlt_dec zL (-1.0 * RooModDSCB.alphaL self)); [discriminate |].
      destruct (Rlt_dec zL 0); [discriminate |].
      destruct (Rlt_dec zR (RooModDSCB.alphaR self)); [lra | discriminate].
    + intros E.
      destruct (Rlt_dec zL (-1.0 * RooModDSCB.alphaL self)); [lra |].
      destruct (Rlt_dec zL 0); [discriminate |].
      destruct (Rlt_dec zR (RooModDSCB.alphaR self)); discriminate.
    + intros HsL HsR HaL HaR. split.
      * intros E.
        assert (Hd : RooModDSCB.x self - RooModDSCB.x0 self
                     = RooModDSCB.alphaR self * RooModDSCB.sigmaR self).
        { rewrite <- E. unfold zR. field. lra. }
        assert (Hz : 0 < zL).
        { apply Rdiv_lt_0_compat; [| assumption].
          rewrite Hd. now apply Rmult_lt_0_compat. }
        destruct (Rlt_dec zL (-1.0 * RooModDSCB.alphaL self)); [lra |].
        destruct (Rlt_dec zL 0); [lra |].
        destruct (Rlt_dec zR (RooModDSCB.alphaR self)); [lra | reflexivity].
      * intros E.
        destruct (Rlt_dec zL (-1.0 * RooModDSCB.alphaL self)); [lra |].
        destruct (Rlt_dec zL 0); [reflexivity | lra].
  - intros self z. unfold RooGaussBern.classify. fold z.
    split; [| split].
    + intros E.
      destruct (Rlt_dec z (-1.0 * RooGaussBern.alphaL self)); [discriminate |].
      destruct (Rlt_dec z (RooGaussBern.alphaR self)); [lra | discriminate].
    + intros E.
      destruct (Rlt_dec z (-1.0 * RooGaussBern.alphaL self)); [lra |].
      destruct (Rlt_dec z (RooGaussBern.alphaR self)); discriminate.
    + intros HaL HaR. split; intros E.
      * destruct (Rlt_dec z (-1.0 * RooGaussBern.alphaL self)); [lra |].
        destruct (Rlt_dec z (RooGaussBern.alphaR self)); [lra | reflexivity].
      * destruct (Rlt_dec z (-1.0 * RooGaussBern.alphaL self)); [lra |].
        destruct (Rlt_dec z (RooGaussBern.alphaR self)); [reflexivity | lra].
Qed.

Lemma C2_boundary_samples_witness :
  RooModDSCB.classify (RooModDSCB.unit_shape 1) = RooModDSCB.RightTail /\
  RooModDSCB.classify (RooModDSCB.unit_shape (-1)) = RooModDSCB.CoreLeft /\
  RooGaussBern.classify (RooGaussBern.unit_shape [] [] 1.5)
    = RooGaussBern.RightTail /\
  RooGaussBern.classify (RooGaussBern.unit_shape [] [] (-1.5))
    = RooGaussBern.Core.
Proof.
  destruct C2_boundary_samples as [HD HG].
  destruct (HD (RooModDSCB.unit_shape 1)) as (_ & _ & D1).
  destruct (HD (RooModDSCB.unit_shape (-1))) as (_ & _ & D2).
  destruct (HG (RooGaussBern.unit_shape [] [] 1.5)) as (_ & _ & G1).
  destruct (HG (RooGaussBern.unit_shape [] [] (-1.5))) as (_ & _ & G2).
  repeat split.
  - apply D1; simpl; lra.
  - apply D2; simpl; lra.
  - apply G1; simpl; lra.
  - apply G2; simpl; lra.
Defined.

(** The claim as the specification words it fails on the left: the sample
    with [(x-x0)/sigma = -alphaL] is classified into the core by both
    shapes, not into the left tail. *)
Lemma C2_left_boundary_not_in_tail :
  (let p := RooModDSCB.unit_shape (-1) in
   (RooModDSCB.x p - RooModDSCB.x0 p) / RooModDSCB.sigmaL p
     = - RooModDSCB.alphaL p /\
   RooModDSCB.classify p = RooModDSCB.CoreLeft /\
   RooModDSCB.classify p <> RooModDSCB.LeftTail) /\
  (let q := RooGaussBern.unit_shape [] [] (-1.5) in
   (RooGaussBern.x q - RooGaussBern.x0 q) / RooGaussBern.sigma q
     = - RooGaussBern.alphaL q /\
   RooGaussBern.classify q = RooGaussBern.Core /\
   RooGaussBern.classify q <> RooGaussBern.LeftTail).
Proof.
  split.
  - assert (E : RooModDSCB.classify (RooModDSCB.unit_shape (-1))
                = RooModDSCB.CoreLeft).
    { unfold RooModDSCB.classify. simpl.
      destruct (Rlt_dec _ _); [lra |].
      destruct (Rlt_dec _ _); [reflexivity | lra]. }
    simpl. repeat split; [lra | exact E | rewrite E; discriminate].
  - assert (E : RooGaussBern.classify (RooGaussBern.unit_shape [] [] (-1.5))
                = RooGaussBern.Core).
    { unfold RooGaussBern.classify. simpl.
      destruct (Rlt_dec _ _); [lra |].
      destruct (Rlt_dec _ _); [reflexivity | lra]. }
    simpl. repeat split; [lra | exact E | rewrite E; discriminate].
Qed.

(** The sign conditions matter for the right boundary: with a negative
    [alphaR] the sample with [(x-x0)/sigmaR = alphaR] is left of [x0] and is
    classified by the tests on [left_sigma]. *)
Lemma right_boundary_negative_alphaR :
  let p := RooModDSCB.mk (-0.5) 0 1 1 1 2 2 1 (-0.5) 2 2 1 in
  (RooModDSCB.x p - RooModDSCB.x0 p) / RooModDSCB.sigmaR p
    = RooModDSCB.alphaR p /\
  RooModDSCB.classify p = RooModDSCB.CoreLeft.
Proof.
  simpl. split; [lra |].
  unfold RooModDSCB.classify. simpl.
  destruct (Rlt_dec _ _); [lra |].
  destruct (Rlt_dec _ _); [reflexivity | lra].
Qed.

(** * [RooModDSCB]: mirror symmetry *)

(** The right branch at [-z] computes what the left branch computes at [z],
    parameter for parameter. *)
Lemma right_power_law_mirror (n1 n2 f alpha z : R) :
  RooModDSCB.right_power_law n1 n2 f alpha (- z)
  = RooModDSCB.left_power_law n1 n2 f alpha z.
Proof. reflexivity. Qed.

Lemma left_power_law_mirror (n1 n2 f alpha z : R) :
  RooModDSCB.left_power_law n1 n2 f alpha (- z)
  = RooModDSCB.right_power_law n1 n2 f alpha z.
Proof.
  rewrite <- (Ropp_involutive z) at 2. apply eq_sym, right_power_law_mirror.
Qed.

(** C10. With [sigmaL = sigmaR], [alphaL = alphaR > 0], [nL1 = nR1 > 0],
    [nL2 = nR2] and [fL = fR], [RooModDSCB::evaluate] returns the same value
    at [x0 + d] and at [x0 - d], for every [d]. *)
Theorem C10_DSCB_mirror_symmetry (self : RooModDSCB.t) (d : R) :
  RooModDSCB.sigmaL self = RooModDSCB.sigmaR self ->
  RooModDSCB.alphaL self = RooModDSCB.alphaR self ->
  0 < RooModDSCB.alphaL self ->
  RooModDSCB.nL1 self = RooModDSCB.nR1 self ->
  0 < RooModDSCB.nL1 self ->
  RooModDSCB.nL2 self = RooModDSCB.nR2 self ->
  RooModDSCB.fL self = RooModDSCB.fR self ->
  RooModDSCB.evaluate (RooModDSCB.at_x self (RooModDSCB.x0 self + d))
  = RooModDSCB.evaluate (RooModDSCB.at_x self (RooModDSCB.x0 self - d)).
Proof.
  destruct self as [v c sL sR aL n1 n2 f aR m1 m2 g]. simpl.
  intros <- <- Ha <- Hn <- <-.
  unfold RooModDSCB.evaluate, RooModDSCB.at_x. simpl.
  replace (c + d - c) with d by ring.
  replace (c - d - c) with (- d) by ring.
  rewrite Rdiv_opp_l.
  set (z := d / sL). clearbody z.
  pose proof (left_power_law_junction n1 n2 f aL Ha Hn) as JL.
  pose proof (right_power_law_junction n1 n2 f aL Ha Hn) as JR.
  destruct (Rlt_dec z (-1.0 * aL)) as [A | A].
  - destruct (Rlt_dec (- z) (-1.0 * aL)); [lra |].
    destruct (Rlt_dec (- z) 0); [lra |].
    destruct (Rlt_dec (- z) aL); [lra |].
    now rewrite right_power_law_mirror.
  - destruct (Rlt_dec z 0) as [B | B].
    + destruct (Rlt_dec (- z) (-1.0 * aL)); [lra |].
      destruct (Rlt_dec (- z) 0); [lra |].
      destruct (Rlt_dec (- z) aL) as [C | C].
      * f_equal. ring.
      * assert (E : z = - aL) by lra. subst z.
        rewrite Ropp_involutive, JR. f_equal. ring.
    + destruct (Rlt_dec z aL) as [C | C].
      * destruct (Rlt_dec (- z) (-1.0 * aL)); [lra |].
        destruct (Rlt_dec (- z) 0); [f_equal; ring |].
        destruct (Rlt_dec (- z) aL); [f_equal; ring | lra].
      * destruct (Rlt_dec (- z) (-1.0 * aL)) as [D | D].
        -- now rewrite left_power_law_mirror.
        -- destruct (Rlt_dec (- z) 0); [| lra].
           assert (E : z = aL) by lra. subst z.
           rewrite JR. f_equal. ring.
Qed.

Lemma C10_DSCB_mirror_symmetry_witness :
  RooModDSCB.evaluate (RooModDSCB.unit_shape (0 + 1))
  = RooModDSCB.evaluate (RooModDSCB.unit_shape (0 - 1)).
Proof.
  apply (C10_DSCB_mirror_symmetry (RooModDSCB.unit_shape 7) 1);
    simpl; try reflexivity; lra.
Defined.

(** * [RooModDSCB]: the shape of concrete scenario C *)

Lemma Power_2 (b : R) : TMath.Power b 2 = b ^ 2.
Proof.
  rewrite <- (Power_INR b 2). reflexivity.
Qed.

Lemma Power_minus_2 (b : R) : 0 < b -> TMath.Power b (-1.0 * 2) = / b ^ 2.
Proof.
  intros Hb. rewrite Power_pos by assumption.
  replace (-1.0 * 2) with (- INR 2) by (simpl; lra).
  now rewrite Rpower_Ropp, Rpower_pow.
Qed.

Lemma unit_shape_left_tail_iff (v : R) :
  RooModDSCB.classify (RooModDSCB.unit_shape v) = RooModDSCB.LeftTail
  <-> v < -1.
Proof.
  unfold RooModDSCB.classify, RooModDSCB.unit_shape. simpl.
  replace ((v - 0) / 1) with v by field.
  destruct (Rlt_dec v (-1.0 * 1)).
  - split; [lra | reflexivity].
  - split; [| lra].
    destruct (Rlt_dec v 0); [discriminate |].
    destruct (Rlt_dec v 1); discriminate.
Qed.

(** In the left tail the shape of scenario C is [4 exp(-0.5) / (1 - x)^2]. *)
Lemma unit_shape_left_tail_value (v : R) :
  v < -1 ->
  RooModDSCB.evaluate (RooModDSCB.unit_shape v)
  = 4 * exp (-0.5) / (1 - v) ^ 2.
Proof.
  intros Hv. unfold RooModDSCB.evaluate, RooModDSCB.unit_shape. simpl.
  replace ((v - 0) / 1) with v by field.
  destruct (Rlt_dec v (-1.0 * 1)); [| lra].
  unfold RooModDSCB.left_power_law.
  destruct (Rlt_dec 2 2); [lra |].
  rewrite Rabs_R1.
  replace (2 / 1) with 2 by field.
  replace (2 - 1 - v) with (1 - v) by ring.
  rewrite Power_2, Power_minus_2 by lra.
  replace (-0.5 * 1 * 1) with (-0.5) by lra.
  rewrite literal_one. field. lra.
Qed.

(** C7. The shape [x0=0, sigmaL=sigmaR=1, alphaL=alphaR=1, n=2, f=1] at
    [x = -5] has a value strictly between [0] and [exp(-0.5)], and over the
    left-tail region its value strictly decreases as [x] decreases. *)
Theorem C7_unit_shape_deep_left_tail :
  0 < RooModDSCB.evaluate (RooModDSCB.unit_shape (-5)) < exp (-0.5) /\
  (forall x1 x2 : R,
     RooModDSCB.classify (RooModDSCB.unit_shape x1) = RooModDSCB.LeftTail ->
     RooModDSCB.classify (RooModDSCB.unit_shape x2) = RooModDSCB.LeftTail ->
     x1 < x2 ->
     RooModDSCB.evaluate (RooModDSCB.unit_shape x1)
     < RooModDSCB.evaluate (RooModDSCB.unit_shape x2)).
Proof.
  pose proof (exp_pos (-0.5)) as He.
  split.
  - rewrite unit_shape_left_tail_value by lra.
    replace (4 * exp (-0.5) / (1 - -5) ^ 2) with (exp (-0.5) / 9) by field.
    lra.
  - intros x1 x2 H1 H2 Hlt.
    apply unit_shape_left_tail_iff in H1, H2.
    rewrite !unit_shape_left_tail_value by assumption.
    unfold Rdiv. apply Rmult_lt_compat_l; [lra |].
    apply Rinv_lt_contravar.
    + apply Rmult_lt_0_compat; apply pow_lt; lra.
    + simpl. nra.
Qed.

Lemma C7_unit_shape_deep_left_tail_witness :
  RooModDSCB.evaluate (RooModDSCB.unit_shape (-6))
  < RooModDSCB.evaluate (RooModDSCB.unit_shape (-5)).
Proof.
  apply C7_unit_shape_deep_left_tail.
  - apply unit_shape_left_tail_iff. lra.
  - apply unit_shape_left_tail_iff. lra.
  - lra.
Defined.

(** * [RooGaussBern]: the loops as sums *)

(** A loop [for (i = 0; i <= n; i++) rval += f i] adds [f 0 + ... + f n]. *)
Lemma loop_sum (step : R -> nat -> R) (f : nat -> R) :
  (forall r i, step r i = r + f i) ->
  forall (n : nat) (r : R),
    fold_left step (seq 0 (S n)) r = r + sum_f_R0 f n.
Proof.
  intros Hstep. induction n as [| n IH]; intros r.
  - simpl. apply Hstep.
  - rewrite seq_S, fold_left_app, IH. simpl. rewrite Hstep. ring.
Qed.

Lemma left_polynomial_sum (coefs : list R) (alpha u : R) :
  RooGaussBern.left_polynomial coefs alpha u
  = BernsteinSpec.left_tail coefs alpha u.
Proof.
  unfold RooGaussBern.left_polynomial, BernsteinSpec.left_tail,
    BernsteinSpec.tail_sum.
  rewrite (loop_sum _ (fun i =>
     BernsteinSpec.termCoef_left (BernsteinSpec.coef0 alpha) coefs i
     * u ^ i * (1 - u) ^ (length coefs - i))).
  - lra.
  - intros r i. unfold RooGaussBern.left_step, BernsteinSpec.termCoef_left,
      BernsteinSpec.coef0.
    rewrite !Power_INR, literal_one, gauss_arg. reflexivity.
Qed.

Lemma right_polynomial_sum (coefs : list R) (alpha u : R) :
  RooGaussBern.right_polynomial coefs alpha u
  = BernsteinSpec.right_tail coefs alpha u.
Proof.
  unfold RooGaussBern.right_polynomial, BernsteinSpec.right_tail,
    BernsteinSpec.tail_sum.
  rewrite (loop_sum _ (fun i =>
     BernsteinSpec.termCoef_right (BernsteinSpec.coef0 alpha) coefs i
     * u ^ i * (1 - u) ^ (length coefs - i))).
  - lra.
  - intros r i. unfold RooGaussBern.right_step, BernsteinSpec.termCoef_right,
      BernsteinSpec.coef0.
    rewrite !Power_INR, literal_one, gauss_arg.
    destruct i as [| j]; simpl Nat.ltb; cbv iota.
    + reflexivity.
    + now rewrite Nat.sub_succ, Nat.sub_0_r.
Qed.

Lemma GaussBern_left_tail (self : RooGaussBern.t) :
  RooGaussBern.classify self = RooGaussBern.LeftTail ->
  RooGaussBern.evaluate self
  = RooGaussBern.left_polynomial (RooGaussBern.bernCoefsL self)
      (RooGaussBern.alphaL self) (RooGaussBern.left_x_scaled self).
Proof.
  unfold RooGaussBern.classify, RooGaussBern.evaluate.
  destruct (Rlt_dec _ _); [reflexivity |].
  destruct (Rlt_dec _ _); discriminate.
Qed.

Lemma GaussBern_right_tail (self : RooGaussBern.t) :
  RooGaussBern.classify self = RooGaussBern.RightTail ->
  RooGaussBern.evaluate self
  = RooGaussBern.right_polynomial (RooGaussBern.bernCoefsR self)
      (RooGaussBern.alphaR self) (RooGaussBern.right_x_scaled self).
Proof.
  unfold RooGaussBern.classify, RooGaussBern.evaluate.
  destruct (Rlt_dec _ _); [discriminate |].
  destruct (Rlt_dec _ _); [discriminate | reflexivity].
Qed.

Lemma GaussBern_core (self : RooGaussBern.t) :
  RooGaussBern.classify self = RooGaussBern.Core ->
  RooGaussBern.evaluate self
  = exp (-0.5 * ((RooGaussBern.x self - RooGaussBern.x0 self)
                 / RooGaussBern.sigma self) ^ 2).
Proof.
  unfold RooGaussBern.classify, RooGaussBern.evaluate.
  destruct (Rlt_dec _ _); [discriminate |].
  destruct (Rlt_dec _ _); [now rewrite gauss_arg | discriminate].
Qed.

(** C5. With [m] coefficients on a side and [coef0 = exp (-0.5 alpha^2)],
    the value [RooGaussBern::evaluate] returns in a tail is the sum over
    [i = 0..m] of [termCoef i * u^i * (1-u)^(m-i)], where on the left
    [termCoef i = coef0 * coefs[i]] for [i < m] and [termCoef m = coef0],
    and on the right [termCoef 0 = coef0] and
    [termCoef i = coef0 * coefs[i-1]] for [i = 1..m]. *)
Theorem C5_bernstein_tail_sum (self : RooGaussBern.t) :
  (RooGaussBern.classify self = RooGaussBern.LeftTail ->
   let coefs := RooGaussBern.bernCoefsL self in
   let m := length coefs in
   let u := RooGaussBern.left_x_scaled self in
   let coef0 := exp (-0.5 * RooGaussBern.alphaL self ^ 2) in
   RooGaussBern.evaluate self
   = sum_f_R0 (fun i =>
       (if (i <? m)%nat then coef0 * nth i coefs 0 else coef0)
       * u ^ i * (1 - u) ^ (m - i)) m) /\
  (RooGaussBern.classify self = RooGaussBern.RightTail ->
   let coefs := RooGaussBern.bernCoefsR self in
   let m := length coefs in
   let u := RooGaussBern.right_x_scaled self in
   let coef0 := exp (-0.5 * RooGaussBern.alphaR self ^ 2) in
   RooGaussBern.evaluate self
   = sum_f_R0 (fun i =>
       match i with
       | O => coef0
       | S j => coef0 * nth j coefs 0
       end * u ^ i * (1 - u) ^ (m - i)) m).
Proof.
  split; intros H; cbv zeta.
  - rewrite (GaussBern_left_tail self H), left_polynomial_sum. reflexivity.
  - rewrite (GaussBern_right_tail self H), right_polynomial_sum. reflexivity.
Qed.

Lemma GaussBern_classify_left (self : RooGaussBern.t) :
  (RooGaussBern.x self - RooGaussBern.x0 self) / RooGaussBern.sigma self
    < - RooGaussBern.alphaL self ->
  RooGaussBern.classify self = RooGaussBern.LeftTail.
Proof.
  intros H. unfold RooGaussBern.classify.
  destruct (Rlt_dec _ _); [reflexivity | lra].
Qed.

Lemma GaussBern_classify_core (self : RooGaussBern.t) :
  - RooGaussBern.alphaL self
    <= (RooGaussBern.x self - RooGaussBern.x0 self) / RooGaussBern.sigma self
    < RooGaussBern.alphaR self ->
  RooGaussBern.classify self = RooGaussBern.Core.
Proof.
  intros H. unfold RooGaussBern.classify.
  destruct (Rlt_dec _ _); [lra |].
  destruct (Rlt_dec _ _); [reflexivity | lra].
Qed.

Lemma GaussBern_classify_right (self : RooGaussBern.t) :
  - RooGaussBern.alphaL self
    <= (RooGaussBern.x self - RooGaussBern.x0 self) / RooGaussBern.sigma self ->
  RooGaussBern.alphaR self
    <= (RooGaussBern.x self - RooGaussBern.x0 self) / RooGaussBern.sigma self ->
  RooGaussBern.classify self = RooGaussBern.RightTail.
Proof.
  intros H1 H2. unfold RooGaussBern.classify.
  destruct (Rlt_dec _ _); [lra |].
  destruct (Rlt_dec _ _); [lra | reflexivity].
Qed.

Lemma C5_bernstein_tail_sum_witness :
  let p := RooGaussBern.unit_shape [2; 3] [4] (-3) in
  let u := RooGaussBern.left_x_scaled p in
  let coef0 := exp (-0.5 * 1.5 ^ 2) in
  RooGaussBern.evaluate p
  = coef0 * 2 * u ^ 0 * (1 - u) ^ 2
    + coef0 * 3 * u ^ 1 * (1 - u) ^ 1
    + coef0 * u ^ 2 * (1 - u) ^ 0.
Proof.
  intros p u coef0.
  destruct (C5_bernstein_tail_sum p) as [HL _].
  rewrite HL.
  - reflexivity.
  - apply GaussBern_classify_left. simpl. lra.
Defined.

(** * [RooGaussBern]: an empty coefficient list *)

Lemma left_polynomial_nil (alpha u : R) :
  RooGaussBern.left_polynomial [] alpha u = exp (-0.5 * alpha ^ 2).
Proof.
  rewrite left_polynomial_sum.
  unfold BernsteinSpec.left_tail, BernsteinSpec.tail_sum,
    BernsteinSpec.termCoef_left, BernsteinSpec.coef0.
  simpl. ring.
Qed.

Lemma right_polynomial_nil (alpha u : R) :
  RooGaussBern.right_polynomial [] alpha u = exp (-0.5 * alpha ^ 2).
Proof.
  rewrite right_polynomial_sum.
  unfold BernsteinSpec.right_tail, BernsteinSpec.tail_sum,
    BernsteinSpec.termCoef_right, BernsteinSpec.coef0.
  simpl. ring.
Qed.

(** C8. With an empty coefficient list on a side, [RooGaussBern::evaluate]
    returns [coef0 = exp (-0.5 alpha^2)] of that side at every [x] it
    classifies into that tail, whatever [x] and the domain edges are. *)
Theorem C8_empty_coefficient_list (self : RooGaussBern.t) :
  (RooGaussBern.bernCoefsL self = [] ->
   RooGaussBern.classify self = RooGaussBern.LeftTail ->
   RooGaussBern.evaluate self = exp (-0.5 * RooGaussBern.alphaL self ^ 2)) /\
  (RooGaussBern.bernCoefsR self = [] ->
   RooGaussBern.classify self = RooGaussBern.RightTail ->
   RooGaussBern.evaluate self = exp (-0.5 * RooGaussBern.alphaR self ^ 2)).
Proof.
  split; intros E H.
  - rewrite (GaussBern_left_tail self H), E. apply left_polynomial_nil.
  - rewrite (GaussBern_right_tail self H), E. apply right_polynomial_nil.
Qed.

Lemma C8_empty_coefficient_list_witness :
  RooGaussBern.evaluate (RooGaussBern.unit_shape [] [] (-3))
    = exp (-0.5 * 1.5 ^ 2) /\
  RooGaussBern.evaluate (RooGaussBern.unit_shape [] [] 4)
    = exp (-0.5 * 1.5 ^ 2).
Proof.
  destruct (C8_empty_coefficient_list (RooGaussBern.unit_shape [] [] (-3)))
    as [HL _].
  destruct (C8_empty_coefficient_list (RooGaussBern.unit_shape [] [] 4))
    as [_ HR].
  split.
  - apply HL.
    + reflexivity.
    + apply GaussBern_classify_left. simpl. lra.
  - apply HR.
    + reflexivity.
    + apply GaussBern_classify_right; simpl; lra.
Defined.

(** * [RooGaussBern]: sign of the tails *)

Lemma sum_f_R0_nonneg (f : nat -> R) (n : nat) :
  (forall i, (i <= n)%nat -> 0 <= f i) -> 0 <= sum_f_R0 f n.
Proof.
  induction n as [| n IH]; intros H; simpl.
  - apply H. lia.
  - apply Rplus_le_le_0_compat.
    + apply IH. intros i Hi. apply H. lia.
    + apply H. lia.
Qed.

Lemma nth_nonneg (coefs : list R) (i : nat) :
  Forall (fun c => 0 <= c) coefs -> 0 <= nth i coefs 0.
Proof.
  intros H. revert i.
  induction H as [| c l Hc _ IH]; intros [| i]; simpl; auto; lra.
Qed.

Lemma tail_sum_nonneg (termCoef : nat -> R) (m : nat) (u : R) :
  (forall i, 0 <= termCoef i) -> 0 <= u <= 1 ->
  0 <= BernsteinSpec.tail_sum termCoef m u.
Proof.
  intros Hc Hu. unfold BernsteinSpec.tail_sum.
  apply sum_f_R0_nonneg. intros i _.
  apply Rmult_le_pos; [apply Rmult_le_pos |].
  - apply Hc.
  - apply pow_le. lra.
  - apply pow_le. lra.
Qed.

Lemma left_polynomial_nonneg (coefs : list R) (alpha u : R) :
  Forall (fun c => 0 <= c) coefs -> 0 <= u <= 1 ->
  0 <= RooGaussBern.left_polynomial coefs alpha u.
Proof.
  intros Hc Hu. rewrite left_polynomial_sum.
  apply tail_sum_nonneg; [| assumption].
  intros i. unfold BernsteinSpec.termCoef_left, BernsteinSpec.coef0.
  pose proof (exp_pos (-0.5 * alpha ^ 2)) as He.
  pose proof (nth_nonneg coefs i Hc) as Hn.
  destruct (i <? length coefs)%nat; [apply Rmult_le_pos |]; lra.
Qed.

Lemma right_polynomial_nonneg (coefs : list R) (alpha u : R) :
  Forall (fun c => 0 <= c) coefs -> 0 <= u <= 1 ->
  0 <= RooGaussBern.right_polynomial coefs alpha u.
Proof.
  intros Hc Hu. rewrite right_polynomial_sum.
  apply tail_sum_nonneg; [| assumption].
  intros i. unfold BernsteinSpec.termCoef_right, BernsteinSpec.coef0.
  pose proof (exp_pos (-0.5 * alpha ^ 2)) as He.
  destruct i as [| j]; [lra |].
  pose proof (nth_nonneg coefs j Hc) as Hn.
  apply Rmult_le_pos; lra.
Qed.

Lemma GaussBern_left_tail_inv (self : RooGaussBern.t) :
  RooGaussBern.classify self = RooGaussBern.LeftTail ->
  (RooGaussBern.x self - RooGaussBern.x0 self) / RooGaussBern.sigma self
    < - RooGaussBern.alphaL self.
Proof.
  unfold RooGaussBern.classify.
  destruct (Rlt_dec _ _) as [L | _]; [intros _; lra |].
  destruct (Rlt_dec _ _); discriminate.
Qed.

Lemma GaussBern_right_tail_inv (self : RooGaussBern.t) :
  RooGaussBern.classify self = RooGaussBern.RightTail ->
  RooGaussBern.alphaR self
    <= (RooGaussBern.x self - RooGaussBern.x0 self) / RooGaussBern.sigma self.
Proof.
  unfold RooGaussBern.classify.
  destruct (Rlt_dec _ _); [discriminate |].
  destruct (Rlt_dec _ _) as [| N]; [discriminate | intros _; lra].
Qed.

Lemma evaluate_nonneg (self : RooGaussBern.t) :
  Forall (fun c => 0 <= c) (RooGaussBern.bernCoefsL self) ->
  Forall (fun c => 0 <= c) (RooGaussBern.bernCoefsR self) ->
  (RooGaussBern.classify self = RooGaussBern.LeftTail ->
   0 <= RooGaussBern.left_x_scaled self <= 1) ->
  (RooGaussBern.classify self = RooGaussBern.RightTail ->
   0 <= RooGaussBern.right_x_scaled self <= 1) ->
  0 <= RooGaussBern.evaluate self.
Proof.
  intros HL HR HuL HuR.
  destruct (RooGaussBern.classify self) eqn:E.
  - rewrite (GaussBern_left_tail self E).
    apply left_polynomial_nonneg; auto.
  - rewrite (GaussBern_core self E). left. apply exp_pos.
  - rewrite (GaussBern_right_tail self E).
    apply right_polynomial_nonneg; auto.
Qed.

(** With [sigma > 0], a sample inside the domain that is classified into a
    tail has its rescaled coordinate in [[0,1]] (on the right, when the
    junction is not the upper edge itself, where [x_scaled] is [0/0]). *)
Lemma left_x_scaled_in_domain (self : RooGaussBern.t) :
  0 < RooGaussBern.sigma self ->
  RooGaussBern.x_min self <= RooGaussBern.x self ->
  RooGaussBern.classify self = RooGaussBern.LeftTail ->
  0 <= RooGaussBern.left_x_scaled self <= 1.
Proof.
  intros Hs Hlo H. apply GaussBern_left_tail_inv in H.
  apply div_lt_iff in H; [| assumption].
  unfold RooGaussBern.left_x_scaled. apply div_unit_interval; lra.
Qed.

Lemma right_x_scaled_in_domain (self : RooGaussBern.t) :
  0 < RooGaussBern.sigma self ->
  RooGaussBern.x self <= RooGaussBern.x_max self ->
  RooGaussBern.x0 self + RooGaussBern.alphaR self * RooGaussBern.sigma self
    <> RooGaussBern.x_max self ->
  RooGaussBern.classify self = RooGaussBern.RightTail ->
  0 <= RooGaussBern.right_x_scaled self <= 1.
Proof.
  intros Hs Hhi Hne H. apply GaussBern_right_tail_inv in H.
  apply Rle_not_lt in H. rewrite div_lt_iff in H by assumption.
  unfold RooGaussBern.right_x_scaled. apply div_unit_interval; lra.
Qed.

(** C9. With every coefficient [>= 0], the value of a Bernstein tail is
    [>= 0] at every rescaled coordinate [u] in [[0,1]]; hence, with
    [sigma > 0], [RooGaussBern::evaluate] returns a value [>= 0] at every
    [x] whose rescaled coordinate, when [x] is in a tail, lies in [[0,1]].
    That is so at every [x] of the domain [[x.min(), x.max()]], as long as
    the right junction is not the upper edge itself. *)
Theorem C9_nonnegative_coefficients (self : RooGaussBern.t) :
  Forall (fun c => 0 <= c) (RooGaussBern.bernCoefsL self) ->
  Forall (fun c => 0 <= c) (RooGaussBern.bernCoefsR self) ->
  (forall u : R, 0 <= u <= 1 ->
     0 <= RooGaussBern.left_polynomial (RooGaussBern.bernCoefsL self)
            (RooGaussBern.alphaL self) u /\
     0 <= RooGaussBern.right_polynomial (RooGaussBern.bernCoefsR self)
            (RooGaussBern.alphaR self) u) /\
  (0 < RooGaussBern.sigma self ->
   (RooGaussBern.classify self = RooGaussBern.LeftTail ->
    0 <= RooGaussBern.left_x_scaled self <= 1) ->
   (RooGaussBern.classify self = RooGaussBern.RightTail ->
    0 <= RooGaussBern.right_x_scaled self <= 1) ->
   0 <= RooGaussBern.evaluate self) /\
  (0 < RooGaussBern.sigma self ->
   RooGaussBern.x_min self <= RooGaussBern.x self <= RooGaussBern.x_max self ->
   RooGaussBern.x0 self + RooGaussBern.alphaR self * RooGaussBern.sigma self
     <> RooGaussBern.x_max self ->
   0 <= RooGaussBern.evaluate self).
Proof.
  intros HL HR. split; [| split].
  - intros u Hu. split.
    + now apply left_polynomial_nonneg.
    + now apply right_polynomial_nonneg.
  - intros _. now apply evaluate_nonneg.
  - intros Hs [Hlo Hhi] Hne. apply evaluate_nonneg; try assumption.
    + now apply left_x_scaled_in_domain.
    + now apply right_x_scaled_in_domain.
Qed.

Lemma C9_nonnegative_coefficients_witness :
  0 <= RooGaussBern.evaluate (RooGaussBern.unit_shape [1; 2] [3] (-3)) /\
  0 <= RooGaussBern.evaluate (RooGaussBern.unit_shape [1; 2] [3] 4).
Proof.
  destruct (C9_nonnegative_coefficients
              (RooGaussBern.unit_shape [1; 2] [3] (-3))) as (_ & H1 & _).
  { simpl. repeat constructor; lra. }
  { simpl. repeat constructor; lra. }
  destruct (C9_nonnegative_coefficients
              (RooGaussBern.unit_shape [1; 2] [3] 4)) as (_ & _ & H2).
  { simpl. repeat constructor; lra. }
  { simpl. repeat constructor; lra. }
  split.
  - apply H1.
    + simpl. lra.
    + intros _. unfold RooGaussBern.left_x_scaled. simpl.
      apply div_unit_interval; lra.
    + intros H. exfalso.
      rewrite GaussBern_classify_left in H by (simpl; lra). discriminate.
  - apply H2; simpl; lra.
Defined.

(** * [RooGaussBern]: the junctions *)

Lemma sum_f_R0_zero (f : nat -> R) (n : nat) :
  (forall i, (i <= n)%nat -> f i = 0) -> sum_f_R0 f n = 0.
Proof.
  induction n as [| n IH]; intros H; simpl.
  - apply H. lia.
  - rewrite IH, H by (intros; auto with arith). ring.
Qed.

(** At [u = 1] only the term of index [m] is left. *)
Lemma left_polynomial_at_1 (coefs : list R) (alpha : R) :
  RooGaussBern.left_polynomial coefs alpha 1 = exp (-0.5 * alpha ^ 2).
Proof.
  rewrite left_polynomial_sum.
  unfold BernsteinSpec.left_tail, BernsteinSpec.tail_sum.
  set (m := length coefs).
  assert (Hlast : BernsteinSpec.termCoef_left (BernsteinSpec.coef0 alpha) coefs m
                  * 1 ^ m * (1 - 1) ^ (m - m) = exp (-0.5 * alpha ^ 2)).
  { unfold BernsteinSpec.termCoef_left. fold m.
    rewrite Nat.ltb_irrefl, Nat.sub_diag, pow1. simpl.
    unfold BernsteinSpec.coef0. simpl. ring. }
  clearbody m. destruct m as [| k].
  - exact Hlast.
  - rewrite tech5. cbv beta. rewrite Hlast, sum_f_R0_zero; [ring |].
    intros i Hi.
    replace (S k - i)%nat with (S (k - i)) by lia.
    simpl. ring.
Qed.

(** At [u = 0] only the term of index [0] is left. *)
Lemma right_polynomial_at_0 (coefs : list R) (alpha : R) :
  RooGaussBern.right_polynomial coefs alpha 0 = exp (-0.5 * alpha ^ 2).
Proof.
  rewrite right_polynomial_sum.
  unfold BernsteinSpec.right_tail, BernsteinSpec.tail_sum.
  set (m := length coefs). clearbody m.
  destruct m as [| k].
  - simpl. unfold BernsteinSpec.coef0. simpl. ring.
  - rewrite decomp_sum by lia.
    rewrite sum_f_R0_zero.
    + simpl. rewrite Rminus_0_r, pow1.
      unfold BernsteinSpec.coef0. simpl. ring.
    + intros i _. simpl. ring.
Qed.

(** * [RooGaussBern]: continuity at the junctions *)

(** A function that, near [b], takes at each point the value of one of two
    functions continuous at [b] and equal to it there, is continuous at
    [b]. *)
Lemma continuity_pt_glue (f g h : R -> R) (b r : R) :
  0 < r ->
  continuity_pt f b -> continuity_pt g b ->
  f b = h b -> g b = h b ->
  (forall v, Rdist v b < r -> h v = f v \/ h v = g v) ->
  continuity_pt h b.
Proof.
  intros Hr Hf Hg Ef Eg Hcase eps Heps.
  destruct (Hf eps Heps) as (df & Hdf & Hf').
  destruct (Hg eps Heps) as (dg & Hdg & Hg').
  exists (Rmin r (Rmin df dg)). split.
  - repeat apply Rmin_pos; assumption.
  - intros v [HD Hv]. simpl in Hv, Hf', Hg' |- *.
    assert (Hvr : Rdist v b < r).
    { eapply Rlt_le_trans; [exact Hv | apply Rmin_l]. }
    assert (Hvf : Rdist v b < df).
    { eapply Rlt_le_trans; [exact Hv |].
      eapply Rle_trans; [apply Rmin_r | apply Rmin_l]. }
    assert (Hvg : Rdist v b < dg).
    { eapply Rlt_le_trans; [exact Hv |].
      eapply Rle_trans; [apply Rmin_r | apply Rmin_r]. }
    destruct (Hcase v Hvr) as [E | E]; rewrite E.
    + rewrite <- Ef. apply Hf'. now split.
    + rewrite <- Eg. apply Hg'. now split.
Qed.

Lemma continuity_pt_eq (f g : R -> R) (b : R) :
  (forall v, f v = g v) -> continuity_pt f b -> continuity_pt g b.
Proof.
  intros E. apply (continuity_pt_locally_ext f g 1 b); [lra |].
  intros y _. apply E.
Qed.

Lemma continuity_pt_sum_f_R0 (F : nat -> R -> R) (n : nat) (b : R) :
  (forall i, continuity_pt (F i) b) ->
  continuity_pt (fun v => sum_f_R0 (fun i => F i v) n) b.
Proof.
  intros H. induction n as [| n IH]; simpl.
  - apply (continuity_pt_eq (F 0%nat)); [reflexivity | apply H].
  - apply (continuity_pt_plus (fun v => sum_f_R0 (fun i => F i v) n) (F (S n)));
      [exact IH | apply H].
Qed.

Lemma tail_sum_continuity (termCoef : nat -> R) (m : nat) (a d b : R) :
  continuity_pt
    (fun v => BernsteinSpec.tail_sum termCoef m ((v - a) / d)) b.
Proof.
  unfold BernsteinSpec.tail_sum.
  apply (continuity_pt_sum_f_R0
           (fun i v => termCoef i * ((v - a) / d) ^ i
                       * (1 - (v - a) / d) ^ (m - i))).
  intros i. reg.
Qed.

Lemma gaussian_continuity (c s b : R) :
  continuity_pt (fun v => exp (-0.5 * ((v - c) / s) ^ 2)) b.
Proof. reg. Qed.

Lemma Rdist_lt_upper (v b r : R) : Rdist v b < r -> v < b + r.
Proof.
  unfold Rdist. intros H. apply Rabs_def2 in H. lra.
Qed.

Lemma Rdist_lt_lower (v b r : R) : Rdist v b < r -> b - r < v.
Proof.
  unfold Rdist. intros H. apply Rabs_def2 in H. lra.
Qed.

Section Junctions.

Variables lo hi c s aL aR : R.
Variables cL cR : list R.

Hypothesis s_pos : 0 < s.
Hypothesis aL_pos : 0 < aL.
Hypothesis aR_pos : 0 < aR.
Hypothesis lo_left : lo < c - aL * s.
Hypothesis hi_right : c + aR * s < hi.

(** The shape read at [v]. *)
Local Abbreviation shape v := (RooGaussBern.mk v lo hi c s aL aR cL cR).

Lemma shape_left_iff (v : R) :
  (v - c) / s < - aL <-> v < c - aL * s.
Proof.
  rewrite div_lt_iff by assumption. split; lra.
Qed.

Lemma shape_right_iff (v : R) :
  (v - c) / s < aR <-> v < c + aR * s.
Proof.
  rewrite div_lt_iff by assumption. split; lra.
Qed.

Lemma shape_classify_left (v : R) :
  v < c - aL * s -> RooGaussBern.classify (shape v) = RooGaussBern.LeftTail.
Proof.
  intros H. apply GaussBern_classify_left. simpl. now apply shape_left_iff.
Qed.

Lemma shape_classify_core (v : R) :
  c - aL * s <= v < c + aR * s ->
  RooGaussBern.classify (shape v) = RooGaussBern.Core.
Proof.
  intros [H1 H2]. apply GaussBern_classify_core. simpl. split.
  - apply Rnot_lt_le. rewrite shape_left_iff. lra.
  - now apply shape_right_iff.
Qed.

Lemma shape_classify_right (v : R) :
  c + aR * s <= v -> RooGaussBern.classify (shape v) = RooGaussBern.RightTail.
Proof.
  assert (Hpos : 0 < aL * s /\ 0 < aR * s)
    by (split; apply Rmult_lt_0_compat; assumption).
  intros H. apply GaussBern_classify_right; simpl; apply Rnot_lt_le.
  - rewrite shape_left_iff. lra.
  - rewrite shape_right_iff. lra.
Qed.

Lemma shape_left_junction_value :
  RooGaussBern.evaluate (shape (c - aL * s)) = exp (-0.5 * aL ^ 2).
Proof.
  assert (Hpos : 0 < aL * s /\ 0 < aR * s)
    by (split; apply Rmult_lt_0_compat; assumption).
  rewrite GaussBern_core by (apply shape_classify_core; lra).
  simpl RooGaussBern.x. simpl RooGaussBern.x0. simpl RooGaussBern.sigma.
  replace ((c - aL * s - c) / s) with (- aL) by (field; lra).
  f_equal. simpl. ring.
Qed.

Lemma shape_right_junction_value :
  RooGaussBern.evaluate (shape (c + aR * s)) = exp (-0.5 * aR ^ 2).
Proof.
  rewrite GaussBern_right_tail by (apply shape_classify_right; lra).
  unfold RooGaussBern.right_x_scaled. simpl.
  replace ((c + aR * s - (c + aR * s)) / (hi - (c + aR * s))) with 0
    by (field; lra).
  apply right_polynomial_at_0.
Qed.

Lemma shape_left_junction_continuous :
  continuity_pt (fun v => RooGaussBern.evaluate (shape v)) (c - aL * s).
Proof.
  assert (Hpos : 0 < aL * s /\ 0 < aR * s)
    by (split; apply Rmult_lt_0_compat; assumption).
  apply (continuity_pt_glue
           (fun v => BernsteinSpec.tail_sum
                       (BernsteinSpec.termCoef_left (BernsteinSpec.coef0 aL) cL)
                       (length cL) ((v - lo) / (c - aL * s - lo)))
           (fun v => exp (-0.5 * ((v - c) / s) ^ 2))
           _ _ (aL * s + aR * s)).
  - lra.
  - apply tail_sum_continuity.
  - apply gaussian_continuity.
  - rewrite shape_left_junction_value.
    replace ((c - aL * s - lo) / (c - aL * s - lo)) with 1 by (field; lra).
    fold (BernsteinSpec.left_tail cL aL 1).
    rewrite <- left_polynomial_sum. apply left_polynomial_at_1.
  - rewrite shape_left_junction_value.
    replace ((c - aL * s - c) / s) with (- aL) by (field; lra).
    f_equal. simpl. ring.
  - intros v Hv. apply Rdist_lt_upper in Hv.
    destruct (Rlt_dec v (c - aL * s)) as [L | L].
    + left. rewrite GaussBern_left_tail by now apply shape_classify_left.
      rewrite left_polynomial_sum. reflexivity.
    + right. rewrite GaussBern_core by (apply shape_classify_core; lra).
      reflexivity.
Qed.

Lemma shape_right_junction_continuous :
  continuity_pt (fun v => RooGaussBern.evaluate (shape v)) (c + aR * s).
Proof.
  assert (Hpos : 0 < aL * s /\ 0 < aR * s)
    by (split; apply Rmult_lt_0_compat; assumption).
  apply (continuity_pt_glue
           (fun v => exp (-0.5 * ((v - c) / s) ^ 2))
           (fun v => BernsteinSpec.tail_sum
                       (BernsteinSpec.termCoef_right (BernsteinSpec.coef0 aR) cR)
                       (length cR) ((v - (c + aR * s)) / (hi - (c + aR * s))))
           _ _ (aL * s + aR * s)).
  - lra.
  - apply gaussian_continuity.
  - apply tail_sum_continuity.
  - rewrite shape_right_junction_value.
    replace ((c + aR * s - c) / s) with aR by (field; lra).
    reflexivity.
  - rewrite shape_right_junction_value.
    replace ((c + aR * s - (c + aR * s)) / (hi - (c + aR * s))) with 0
      by (field; lra).
    fold (BernsteinSpec.right_tail cR aR 0).
    rewrite <- right_polynomial_sum. apply right_polynomial_at_0.
  - intros v Hv. apply Rdist_lt_lower in Hv.
    destruct (Rlt_dec v (c + aR * s)) as [L | L].
    + left. rewrite GaussBern_core by (apply shape_classify_core; lra).
      reflexivity.
    + right. rewrite GaussBern_right_tail by (apply shape_classify_right; lra).
      rewrite right_polynomial_sum. reflexivity.
Qed.

End Junctions.

(** C6. With [sigma > 0], [alphaL > 0], [alphaR > 0] and the two junctions
    strictly inside the domain, at [x = x0 - alphaL*sigma] the left tail has
    [u = 1] and its closed form, the closed form of the core and the value
    [RooGaussBern::evaluate] returns are all [exp (-0.5 alphaL^2)];
    at [x = x0 + alphaR*sigma] the right tail has [u = 0] and the three are
    [exp (-0.5 alphaR^2)]; and [evaluate], as a function of [x], is
    continuous at both junctions. *)
Theorem C6_bernstein_junctions (self : RooGaussBern.t) :
  0 < RooGaussBern.sigma self ->
  0 < RooGaussBern.alphaL self ->
  0 < RooGaussBern.alphaR self ->
  RooGaussBern.x_min self
    < RooGaussBern.x0 self - RooGaussBern.alphaL self * RooGaussBern.sigma self ->
  RooGaussBern.x0 self + RooGaussBern.alphaR self * RooGaussBern.sigma self
    < RooGaussBern.x_max self ->
  let bL :=
    RooGaussBern.x0 self - RooGaussBern.alphaL self * RooGaussBern.sigma self in
  let bR :=
    RooGaussBern.x0 self + RooGaussBern.alphaR self * RooGaussBern.sigma self in
  (RooGaussBern.left_x_scaled (RooGaussBern.at_x self bL) = 1 /\
   RooGaussBern.left_polynomial (RooGaussBern.bernCoefsL self)
     (RooGaussBern.alphaL self)
     (RooGaussBern.left_x_scaled (RooGaussBern.at_x self bL))
   = exp (-0.5 * RooGaussBern.alphaL self ^ 2) /\
   exp (-0.5 * ((bL - RooGaussBern.x0 self) / RooGaussBern.sigma self) ^ 2)
   = exp (-0.5 * RooGaussBern.alphaL self ^ 2) /\
   RooGaussBern.evaluate (RooGaussBern.at_x self bL)
   = exp (-0.5 * RooGaussBern.alphaL self ^ 2) /\
   continuity_pt (fun v => RooGaussBern.evaluate (RooGaussBern.at_x self v)) bL)
  /\
  (RooGaussBern.right_x_scaled (RooGaussBern.at_x self bR) = 0 /\
   RooGaussBern.right_polynomial (RooGaussBern.bernCoefsR self)
     (RooGaussBern.alphaR self)
     (RooGaussBern.right_x_scaled (RooGaussBern.at_x self bR))
   = exp (-0.5 * RooGaussBern.alphaR self ^ 2) /\
   exp (-0.5 * ((bR - RooGaussBern.x0 self) / RooGaussBern.sigma self) ^ 2)
   = exp (-0.5 * RooGaussBern.alphaR self ^ 2) /\
   RooGaussBern.evaluate (RooGaussBern.at_x self bR)
   = exp (-0.5 * RooGaussBern.alphaR self ^ 2) /\
   continuity_pt (fun v => RooGaussBern.evaluate (RooGaussBern.at_x self v)) bR).
Proof.
  destruct self as [v lo hi c s aL aR cL cR].
  unfold RooGaussBern.at_x, RooGaussBern.left_x_scaled,
    RooGaussBern.right_x_scaled.
  simpl. intros Hs HaL HaR Hlo Hhi.
  assert (EL : (c - aL * s - lo) / (c - aL * s - lo) = 1) by (field; lra).
  assert (ER : (c + aR * s - (c + aR * s)) / (hi - (c + aR * s)) = 0)
    by (field; lra).
  rewrite EL, ER.
  split; repeat split.
  - replace (aL * (aL * 1)) with (aL ^ 2) by (simpl; ring).
    apply left_polynomial_at_1.
  - f_equal. field. lra.
  - replace (aL * (aL * 1)) with (aL ^ 2) by (simpl; ring).
    now apply shape_left_junction_value.
  - now apply shape_left_junction_continuous.
  - replace (aR * (aR * 1)) with (aR ^ 2) by (simpl; ring).
    apply right_polynomial_at_0.
  - f_equal. field. lra.
  - replace (aR * (aR * 1)) with (aR ^ 2) by (simpl; ring).
    now apply shape_right_junction_value.
  - now apply shape_right_junction_continuous.
Qed.

Lemma C6_bernstein_junctions_witness :
  let p := RooGaussBern.unit_shape [2; 3] [4] 0 in
  (RooGaussBern.evaluate (RooGaussBern.at_x p (0 - 1.5 * 1))
     = exp (-0.5 * 1.5 ^ 2) /\
   continuity_pt (fun v => RooGaussBern.evaluate (RooGaussBern.at_x p v))
     (0 - 1.5 * 1)) /\
  (RooGaussBern.evaluate (RooGaussBern.at_x p (0 + 1.5 * 1))
     = exp (-0.5 * 1.5 ^ 2) /\
   continuity_pt (fun v => RooGaussBern.evaluate (RooGaussBern.at_x p v))
     (0 + 1.5 * 1)).
Proof.
  intros p.
  destruct (C6_bernstein_junctions p) as [(_ & _ & _ & VL & CL)
                                           (_ & _ & _ & VR & CR)];
    try (simpl; lra).
  split; split; assumption.
Defined.

(** * [RooGaussBern]: concrete scenarios A and B *)

(** Scenario A: the peak of the Gaussian core is [1]. *)
Example scenario_A (cl cr : list R) :
  RooGaussBern.evaluate (RooGaussBern.unit_shape cl cr 0) = 1.
Proof.
  rewrite GaussBern_core by (apply GaussBern_classify_core; simpl; lra).
  simpl. replace (-0.5 * ((0 - 0) / 1 * ((0 - 0) / 1 * 1))) with 0 by lra.
  apply exp_0.
Qed.

(** Scenario B: at [x = 1.5], the right junction, the sample is in the right
    tail, where [x_scaled = 0], and the value is [exp(-0.5*1.5*1.5)]. *)
Example scenario_B (cl cr : list R) :
  RooGaussBern.classify (RooGaussBern.unit_shape cl cr 1.5)
    = RooGaussBern.RightTail /\
  RooGaussBern.evaluate (RooGaussBern.unit_shape cl cr 1.5)
    = exp (-0.5 * 1.5 * 1.5).
Proof.
  assert (H : RooGaussBern.classify (RooGaussBern.unit_shape cl cr 1.5)
              = RooGaussBern.RightTail)
    by (apply GaussBern_classify_right; simpl; lra).
  split; [exact H |].
  rewrite (GaussBern_right_tail _ H).
  unfold RooGaussBern.right_x_scaled. simpl.
  replace (1.5 - (0 + 1.5 * 1)) with 0 by lra.
  unfold Rdiv. rewrite Rmult_0_l, gauss_arg.
  apply right_polynomial_at_0.
Qed.

Lemma ln_continuity_pt (b : R) : 0 < b -> continuity_pt ln b.
Proof.
  intros Hb. apply derivable_continuous_pt.
  exists (/ b). now apply derivable_pt_lim_ln.
Qed.

Lemma div_gt_iff (n s k : R) : 0 < s -> (k < n / s <-> k * s < n).
Proof.
  intros Hs.
  assert (E : n = n / s * s) by (field; lra).
  split; intros H.
  - rewrite E. now apply Rmult_lt_compat_r.
  - apply Rmult_lt_reg_r with s; [assumption | now rewrite <- E].
Qed.

(** A convex blend keeps strict order. *)
Lemma blend_lt (f a1 a2 b1 b2 : R) :
  0 <= f <= 1 -> a1 < b1 -> a2 < b2 ->
  f * a1 + (1.0 - f) * a2 < f * b1 + (1.0 - f) * b2.
Proof.
  intros [Hf0 Hf1] H1 H2.
  destruct (Rle_lt_or_eq_dec 0 f Hf0) as [Hpos | <-].
  - assert (P1 : 0 < f * (b1 - a1)) by (apply Rmult_lt_0_compat; lra).
    assert (P2 : 0 <= (1 - f) * (b2 - a2)) by (apply Rmult_le_pos; lra).
    lra.
  - lra.
Qed.


(** One power-law component [A * base^(-n)] on a positive base. *)
Lemma component_Rpower (n a base : R) :
  0 < n -> 0 < a -> 0 < base ->
  TMath.Power (n / a) n * exp (-0.5 * a * a) * TMath.Power base (-1.0 * n)
  = Rpower (n / a) n * exp (-0.5 * a * a) * / Rpower base n.
Proof.
  intros Hn Ha Hb.
  assert (Hq : 0 < n / a) by now apply Rdiv_lt_0_compat.
  rewrite !Power_pos by assumption.
  replace (-1.0 * n) with (- n) by lra.
  now rewrite Rpower_Ropp.
Qed.


Lemma component_decreasing (n a b1 b2 : R) :
  0 < n -> 0 < a -> 0 < b1 -> b1 < b2 ->
  TMath.Power (n / a) n * exp (-0.5 * a * a) * TMath.Power b2 (-1.0 * n)
  < TMath.Power (n / a) n * exp (-0.5 * a * a) * TMath.Power b1 (-1.0 * n).
Proof.
  intros Hn Ha Hb1 Hlt.
  rewrite !component_Rpower by lra.
  apply Rmult_lt_compat_l.
  - apply Rmult_lt_0_compat; apply exp_pos.
  - apply Rinv_lt_contravar.
    + apply Rmult_lt_0_compat; apply exp_pos.
    + apply Rlt_Rpower_l; lra.
Qed.

(** * [RooModDSCB]: sign, order and bounds of the power-law branches *)

Lemma Rmax_div_ge (n1 n2 a : R) : 0 < a -> n1 / a <= Rmax n1 n2 / a.
Proof.
  intros Ha. unfold Rdiv. apply Rmult_le_compat_r.
  - left. now apply Rinv_0_lt_compat.
  - apply Rmax_l.
Qed.


Lemma left_power_law_increasing (n1 n2 f alpha z1 z2 : R) :
  0 < alpha -> 0 < n1 -> 0 <= f <= 1 ->
  z1 < z2 -> z2 < n1 / alpha - alpha ->
  RooModDSCB.left_power_law n1 n2 f alpha z1
  < RooModDSCB.left_power_law n1 n2 f alpha z2.
Proof.
  intros Ha Hn Hf Hlt Hz. unfold RooModDSCB.left_power_law.
  rewrite n2_eff_Rmax, (Rabs_pos_eq alpha) by lra.
  pose proof (Rmax_div_ge n1 n2 alpha Ha) as Hm.
  assert (Hn2 : 0 < Rmax n1 n2).
  { apply Rlt_le_trans with n1; [assumption | apply Rmax_l]. }
  apply blend_lt; [assumption | |]; apply component_decreasing; lra.
Qed.

Lemma left_power_law_below_junction (n1 n2 f alpha z : R) :
  0 < alpha -> 0 < n1 -> 0 <= f <= 1 -> z < - alpha ->
  RooModDSCB.left_power_law n1 n2 f alpha z < exp (-0.5 * alpha * alpha).
Proof.
  intros Ha Hn Hf Hz.
  rewrite <- (left_power_law_junction n1 n2 f alpha Ha Hn).
  apply left_power_law_increasing; try assumption.
  assert (0 < n1 / alpha) by now apply Rdiv_lt_0_compat.
  lra.
Qed.


Lemma right_power_law_decreasing (n1 n2 f alpha z1 z2 : R) :
  0 < alpha -> 0 < n1 -> 0 <= f <= 1 ->
  - (n1 / alpha - alpha) < z1 -> z1 < z2 ->
  RooModDSCB.right_power_law n1 n2 f alpha z2
  < RooModDSCB.right_power_law n1 n2 f alpha z1.
Proof.
  intros Ha Hn Hf Hz Hlt. rewrite <- !left_power_law_mirror.
  apply left_power_law_increasing; try assumption; lra.
Qed.

Lemma right_power_law_below_junction (n1 n2 f alpha z : R) :
  0 < alpha -> 0 < n1 -> 0 <= f <= 1 -> alpha < z ->
  RooModDSCB.right_power_law n1 n2 f alpha z < exp (-0.5 * alpha * alpha).
Proof.
  intros Ha Hn Hf Hz. rewrite <- left_power_law_mirror.
  apply left_power_law_below_junction; try assumption. lra.
Qed.

(** The Gaussian [exp (-0.5 z^2)] orders by [|z|]. *)
Lemma gauss_lt (z1 z2 : R) :
  Rabs z2 < Rabs z1 -> exp (-0.5 * z1 ^ 2) < exp (-0.5 * z2 ^ 2).
Proof.
  intros H. apply exp_increasing.
  assert (H2 : z2 ^ 2 < z1 ^ 2).
  { rewrite <- (pow2_abs z2), <- (pow2_abs z1).
    pose proof (Rabs_pos z2). simpl. nra. }
  lra.
Qed.

Lemma gauss_le (z1 z2 : R) :
  Rabs z2 <= Rabs z1 -> exp (-0.5 * z1 ^ 2) <= exp (-0.5 * z2 ^ 2).
Proof.
  intros [H | H].
  - left. now apply gauss_lt.
  - right. f_equal. rewrite <- (pow2_abs z2), <- (pow2_abs z1), H. reflexivity.
Qed.

Lemma gauss_le_1 (z : R) : exp (-0.5 * z ^ 2) <= 1.
Proof.
  rewrite <- exp_0.
  pose proof (gauss_le z 0) as H.
  replace (-0.5 * 0 ^ 2) with 0 in H by (simpl; lra).
  apply H. rewrite Rabs_R0. apply Rabs_pos.
Qed.

Lemma gauss_lt_1 (z : R) : z <> 0 -> exp (-0.5 * z ^ 2) < 1.
Proof.
  intros Hz. rewrite <- exp_0.
  pose proof (gauss_lt z 0) as H.
  replace (-0.5 * 0 ^ 2) with 0 in H by (simpl; lra).
  apply H. rewrite Rabs_R0. now apply Rabs_pos_lt.
Qed.

(** * [RooModDSCB]: the two halves of the shape *)

(** Reduce the projections of a shape built by [RooModDSCB.mk]. *)
Ltac dscb_fields :=
  cbn [RooModDSCB.x RooModDSCB.x0 RooModDSCB.sigmaL RooModDSCB.sigmaR
       RooModDSCB.alphaL RooModDSCB.nL1 RooModDSCB.nL2 RooModDSCB.fL
       RooModDSCB.alphaR RooModDSCB.nR1 RooModDSCB.nR2 RooModDSCB.fR] in *.

Section DSCB_valid.

Variable self : RooModDSCB.t.

Hypothesis sigmaL_pos : 0 < RooModDSCB.sigmaL self.
Hypothesis sigmaR_pos : 0 < RooModDSCB.sigmaR self.
Hypothesis alphaL_pos : 0 < RooModDSCB.alphaL self.
Hypothesis alphaR_pos : 0 < RooModDSCB.alphaR self.
Hypothesis nL1_pos : 0 < RooModDSCB.nL1 self.
Hypothesis nR1_pos : 0 < RooModDSCB.nR1 self.
Hypothesis fL_unit : 0 <= RooModDSCB.fL self <= 1.
Hypothesis fR_unit : 0 <= RooModDSCB.fR self <= 1.

(** Left of [x0] only the first two branches are reachable. *)
Lemma DSCB_left_of_x0 (v : R) :
  v <= RooModDSCB.x0 self ->
  let z := (v - RooModDSCB.x0 self) / RooModDSCB.sigmaL self in
  z <= 0 /\
  RooModDSCB.evaluate (RooModDSCB.at_x self v)
  = if Rlt_dec z (- RooModDSCB.alphaL self)
    then RooModDSCB.left_power_law (RooModDSCB.nL1 self) (RooModDSCB.nL2 self)
           (RooModDSCB.fL self) (RooModDSCB.alphaL self) z
    else exp (-0.5 * z ^ 2).
Proof.
  intros Hv z.
  assert (Hz : z <= 0).
  { apply Rnot_lt_le. unfold z. intros H.
    apply (Rmult_lt_compat_r (RooModDSCB.sigmaL self)) in H; [| assumption].
    unfold Rdiv in H. rewrite Rmult_assoc, Rinv_l in H; lra. }
  split; [exact Hz |].
  unfold RooModDSCB.evaluate, RooModDSCB.at_x. dscb_fields. fold z.
  rewrite !gauss_arg.
  destruct (Rlt_dec z (-1.0 * RooModDSCB.alphaL self)) as [A | A];
    destruct (Rlt_dec z (- RooModDSCB.alphaL self)) as [A' | A'];
    try lra; try reflexivity.
  destruct (Rlt_dec z 0) as [B | B]; [reflexivity |].
  assert (E : z = 0) by lra.
  assert (Ev : v - RooModDSCB.x0 self = 0).
  { unfold z in E.
    apply (f_equal (fun t => t * RooModDSCB.sigmaL self)) in E.
    unfold Rdiv in E. rewrite Rmult_assoc, Rinv_l in E; lra. }
  rewrite Ev, E.
  replace (0 / RooModDSCB.sigmaR self) with 0 by (unfold Rdiv; ring).
  destruct (Rlt_dec 0 (RooModDSCB.alphaR self)); [reflexivity | lra].
Qed.

(** Right of [x0] only the last two branches are reachable. *)
Lemma DSCB_right_of_x0 (v : R) :
  RooModDSCB.x0 self <= v ->
  let z := (v - RooModDSCB.x0 self) / RooModDSCB.sigmaR self in
  0 <= z /\
  RooModDSCB.evaluate (RooModDSCB.at_x self v)
  = if Rlt_dec z (RooModDSCB.alphaR self)
    then exp (-0.5 * z ^ 2)
    else RooModDSCB.right_power_law (RooModDSCB.nR1 self)
           (RooModDSCB.nR2 self) (RooModDSCB.fR self)
           (RooModDSCB.alphaR self) z.
Proof.
  intros Hv z.
  assert (Hz : 0 <= z).
  { unfold z. apply Rmult_le_pos; [lra |].
    left. now apply Rinv_0_lt_compat. }
  assert (HzL : 0 <= (v - RooModDSCB.x0 self) / RooModDSCB.sigmaL self).
  { apply Rmult_le_pos; [lra |]. left. now apply Rinv_0_lt_compat. }
  split; [exact Hz |].
  unfold RooModDSCB.evaluate, RooModDSCB.at_x. dscb_fields. fold z.
  rewrite !gauss_arg.
  destruct (Rlt_dec _ (-1.0 * RooModDSCB.alphaL self)); [lra |].
  destruct (Rlt_dec _ 0); [lra |].
  reflexivity.
Qed.


(** X2. The value [1] is taken at [x = x0] and nowhere else. *)
Theorem DSCB_maximum_at_x0 :
  RooModDSCB.evaluate self = 1 <-> RooModDSCB.x self = RooModDSCB.x0 self.
Proof.
  pose proof (Rdiv_lt_0_compat _ _ nL1_pos alphaL_pos) as HqL.
  pose proof (Rdiv_lt_0_compat _ _ nR1_pos alphaR_pos) as HqR.
  pose proof (gauss_lt_1 (RooModDSCB.alphaL self)) as HjL.
  pose proof (gauss_lt_1 (RooModDSCB.alphaR self)) as HjR.
  rewrite <- gauss_arg in HjL, HjR.
  unfold RooModDSCB.evaluate. rewrite !gauss_arg.
  set (d := RooModDSCB.x self - RooModDSCB.x0 self).
  assert (HzL : d / RooModDSCB.sigmaL self = 0 <-> d = 0).
  { split; intros E; [| rewrite E; unfold Rdiv; ring].
    apply (f_equal (fun t => t * RooModDSCB.sigmaL self)) in E.
    unfold Rdiv in E. rewrite Rmult_assoc, Rinv_l in E; lra. }
  assert (HzR : d / RooModDSCB.sigmaR self = 0 <-> d = 0).
  { split; intros E; [| rewrite E; unfold Rdiv; ring].
    apply (f_equal (fun t => t * RooModDSCB.sigmaR self)) in E.
    unfold Rdiv in E. rewrite Rmult_assoc, Rinv_l in E; lra. }
  set (zL := d / RooModDSCB.sigmaL self) in *.
  set (zR := d / RooModDSCB.sigmaR self) in *.
  split.
  - intros E. apply Rminus_diag_uniq. fold d.
    destruct (Rlt_dec zL (-1.0 * RooModDSCB.alphaL self)) as [A | A].
    + exfalso.
      pose proof (left_power_law_below_junction
                    (RooModDSCB.nL1 self) (RooModDSCB.nL2 self)
                    (RooModDSCB.fL self) (RooModDSCB.alphaL self) zL
                    alphaL_pos nL1_pos fL_unit ltac:(lra)).
      lra.
    + destruct (Rlt_dec zL 0) as [B | B].
      * exfalso. pose proof (gauss_lt_1 zL ltac:(lra)). lra.
      * destruct (Rlt_dec zR (RooModDSCB.alphaR self)) as [C | C].
        -- apply HzR. destruct (Req_dec zR 0) as [Z | Z]; [exact Z |].
           exfalso. pose proof (gauss_lt_1 zR Z). lra.
        -- exfalso.
           destruct (Req_dec zR (RooModDSCB.alphaR self)) as [Q | Q].
           ++ rewrite Q, right_power_law_junction in E by assumption. lra.
           ++ pose proof (right_power_law_below_junction
                    (RooModDSCB.nR1 self) (RooModDSCB.nR2 self)
                    (RooModDSCB.fR self) (RooModDSCB.alphaR self) zR
                    alphaR_pos nR1_pos fR_unit ltac:(lra)).
              lra.
  - intros E. assert (D0 : d = 0) by (unfold d; lra).
    apply HzL in D0 as ZL. apply HzR in D0 as ZR.
    destruct (Rlt_dec zL (-1.0 * RooModDSCB.alphaL self)); [lra |].
    destruct (Rlt_dec zL 0); [lra |].
    destruct (Rlt_dec zR (RooModDSCB.alphaR self)); [| lra].
    rewrite ZR. replace (-0.5 * 0 ^ 2) with 0 by (simpl; lra). apply exp_0.
Qed.

(** X3. The shape is unimodal: strictly increasing in [x] up to [x0] and
    strictly decreasing from [x0] on, across the core and both tails. *)
Theorem DSCB_unimodal (v1 v2 : R) :
  v1 < v2 ->
  (v2 <= RooModDSCB.x0 self ->
   RooModDSCB.evaluate (RooModDSCB.at_x self v1)
   < RooModDSCB.evaluate (RooModDSCB.at_x self v2)) /\
  (RooModDSCB.x0 self <= v1 ->
   RooModDSCB.evaluate (RooModDSCB.at_x self v2)
   < RooModDSCB.evaluate (RooModDSCB.at_x self v1)).
Proof.
  intros Hlt.
  pose proof (Rdiv_lt_0_compat _ _ nL1_pos alphaL_pos) as HqL.
  pose proof (Rdiv_lt_0_compat _ _ nR1_pos alphaR_pos) as HqR.
  split; intros Hside.
  - destruct (DSCB_left_of_x0 v1 ltac:(lra)) as [Hz1 ->].
    destruct (DSCB_left_of_x0 v2 Hside) as [Hz2 ->].
    set (z1 := (v1 - RooModDSCB.x0 self) / RooModDSCB.sigmaL self) in *.
    set (z2 := (v2 - RooModDSCB.x0 self) / RooModDSCB.sigmaL self) in *.
    assert (Hz : z1 < z2).
    { unfold z1, z2, Rdiv. apply Rmult_lt_compat_r; [| lra].
      now apply Rinv_0_lt_compat. }
    destruct (Rlt_dec z1 (- RooModDSCB.alphaL self)) as [A1 | A1];
      destruct (Rlt_dec z2 (- RooModDSCB.alphaL self)) as [A2 | A2].
    + apply left_power_law_increasing; try assumption. lra.
    + apply Rlt_le_trans
        with (exp (-0.5 * RooModDSCB.alphaL self * RooModDSCB.alphaL self)).
      * now apply left_power_law_below_junction.
      * rewrite gauss_arg. apply gauss_le.
        rewrite (Rabs_left1 z2), (Rabs_pos_eq (RooModDSCB.alphaL self)); lra.
    + lra.
    + apply gauss_lt. rewrite (Rabs_left1 z2), (Rabs_left1 z1); lra.
  - destruct (DSCB_right_of_x0 v1 Hside) as [Hz1 ->].
    destruct (DSCB_right_of_x0 v2 ltac:(lra)) as [Hz2 ->].
    set (z1 := (v1 - RooModDSCB.x0 self) / RooModDSCB.sigmaR self) in *.
    set (z2 := (v2 - RooModDSCB.x0 self) / RooModDSCB.sigmaR self) in *.
    assert (Hz : z1 < z2).
    { unfold z1, z2, Rdiv. apply Rmult_lt_compat_r; [| lra].
      now apply Rinv_0_lt_compat. }
    destruct (Rlt_dec z1 (RooModDSCB.alphaR self)) as [A1 | A1];
      destruct (Rlt_dec z2 (RooModDSCB.alphaR self)) as [A2 | A2].
    + apply gauss_lt. rewrite (Rabs_pos_eq z2), (Rabs_pos_eq z1); lra.
    + destruct (Req_dec z2 (RooModDSCB.alphaR self)) as [E | E].
      * rewrite E, right_power_law_junction, gauss_arg by assumption.
        apply gauss_lt.
        rewrite (Rabs_pos_eq z1), (Rabs_pos_eq (RooModDSCB.alphaR self)); lra.
      * apply Rlt_le_trans
          with (exp (-0.5 * RooModDSCB.alphaR self * RooModDSCB.alphaR self)).
        -- apply right_power_law_below_junction; try assumption. lra.
        -- rewrite gauss_arg. apply gauss_le.
           rewrite (Rabs_pos_eq z1), (Rabs_pos_eq (RooModDSCB.alphaR self));
             lra.
    + lra.
    + apply right_power_law_decreasing; try assumption. lra.
Qed.

End DSCB_valid.

(** * [RooModDSCB]: continuity *)

(** The left power-law branch is continuous in [z] where both bases
    [B - z] are positive. *)
Lemma left_power_law_continuity (n1 n2 f alpha z0 : R) :
  0 < alpha -> 0 < n1 -> z0 < n1 / alpha - alpha ->
  continuity_pt (RooModDSCB.left_power_law n1 n2 f alpha) z0.
Proof.
  intros Ha Hn Hz.
  pose proof (Rmax_div_ge n1 n2 alpha Ha) as Hm.
  set (m := Rmax n1 n2) in *.
  set (E := exp (-0.5 * alpha * alpha)).
  apply (continuity_pt_locally_ext
    (fun z =>
       f * (TMath.Power (n1 / alpha) n1 * E
            * exp (-1.0 * n1 * ln (n1 / alpha - alpha - z)))
       + (1.0 - f) * (TMath.Power (m / alpha) m * E
                      * exp (-1.0 * m * ln (m / alpha - alpha - z))))
    _ (n1 / alpha - alpha - z0)).
  - lra.
  - intros z Hd. apply Rdist_lt_upper in Hd.
    unfold RooModDSCB.left_power_law.
    rewrite n2_eff_Rmax, (Rabs_pos_eq alpha) by lra. fold m E.
    rewrite (Power_pos (n1 / alpha - alpha - z)) by lra.
    rewrite (Power_pos (m / alpha - alpha - z)) by lra.
    reflexivity.
  - reg; apply ln_continuity_pt; lra.
Qed.

Lemma right_power_law_continuity (n1 n2 f alpha z0 : R) :
  0 < alpha -> 0 < n1 -> - (n1 / alpha - alpha) < z0 ->
  continuity_pt (RooModDSCB.right_power_law n1 n2 f alpha) z0.
Proof.
  intros Ha Hn Hz.
  apply (continuity_pt_eq
           (comp (RooModDSCB.left_power_law n1 n2 f alpha) (fun z => - z))).
  - intros z. unfold comp. apply left_power_law_mirror.
  - apply continuity_pt_comp.
    + reg.
    + apply left_power_law_continuity; try assumption. lra.
Qed.

Lemma normalised_continuity (c s b : R) :
  continuity_pt (fun v => (v - c) / s) b.
Proof. reg. Qed.

Section DSCB_continuity.

Variable self : RooModDSCB.t.

Hypothesis sigmaL_pos : 0 < RooModDSCB.sigmaL self.
Hypothesis sigmaR_pos : 0 < RooModDSCB.sigmaR self.
Hypothesis alphaL_pos : 0 < RooModDSCB.alphaL self.
Hypothesis alphaR_pos : 0 < RooModDSCB.alphaR self.
Hypothesis nL1_pos : 0 < RooModDSCB.nL1 self.
Hypothesis nR1_pos : 0 < RooModDSCB.nR1 self.

Local Abbreviation c := (RooModDSCB.x0 self).
Local Abbreviation bL :=
  (RooModDSCB.x0 self - RooModDSCB.alphaL self * RooModDSCB.sigmaL self).
Local Abbreviation bR :=
  (RooModDSCB.x0 self + RooModDSCB.alphaR self * RooModDSCB.sigmaR self).
Local Abbreviation h := (fun v => RooModDSCB.evaluate (RooModDSCB.at_x self v)).
Local Abbreviation TL :=
  (fun v => RooModDSCB.left_power_law (RooModDSCB.nL1 self)
              (RooModDSCB.nL2 self) (RooModDSCB.fL self)
              (RooModDSCB.alphaL self)
              ((v - RooModDSCB.x0 self) / RooModDSCB.sigmaL self)).
Local Abbreviation GL :=
  (fun v => exp (-0.5 * ((v - RooModDSCB.x0 self) / RooModDSCB.sigmaL self) ^ 2)).
Local Abbreviation GR :=
  (fun v => exp (-0.5 * ((v - RooModDSCB.x0 self) / RooModDSCB.sigmaR self) ^ 2)).
Local Abbreviation TR :=
  (fun v => RooModDSCB.right_power_law (RooModDSCB.nR1 self)
              (RooModDSCB.nR2 self) (RooModDSCB.fR self)
              (RooModDSCB.alphaR self)
              ((v - RooModDSCB.x0 self) / RooModDSCB.sigmaR self)).

Lemma DSCB_junctions_ordered : bL < c < bR.
Proof.
  pose proof (Rmult_lt_0_compat _ _ alphaL_pos sigmaL_pos).
  pose proof (Rmult_lt_0_compat _ _ alphaR_pos sigmaR_pos).
  lra.
Qed.

Lemma DSCB_on_left_tail (v : R) : v < bL -> h v = TL v.
Proof.
  intros Hv. pose proof DSCB_junctions_ordered as Ho.
  destruct (DSCB_left_of_x0 self sigmaL_pos alphaR_pos v) as [_ E];
    [lra |].
  cbv beta. rewrite E.
  destruct (Rlt_dec _ _) as [_ | N]; [reflexivity |].
  exfalso. apply N. apply div_lt_iff; [assumption |]. lra.
Qed.

Lemma DSCB_on_left_core (v : R) : bL <= v <= c -> h v = GL v.
Proof.
  intros Hv.
  destruct (DSCB_left_of_x0 self sigmaL_pos alphaR_pos v) as [_ E];
    [lra |].
  cbv beta. rewrite E.
  destruct (Rlt_dec _ _) as [L | _]; [| reflexivity].
  exfalso. apply div_lt_iff in L; [| assumption]. lra.
Qed.

Lemma DSCB_on_right_core (v : R) : c <= v < bR -> h v = GR v.
Proof.
  intros Hv.
  destruct (DSCB_right_of_x0 self sigmaL_pos sigmaR_pos alphaL_pos v)
    as [_ E]; [lra |].
  cbv beta. rewrite E.
  destruct (Rlt_dec _ _) as [_ | N]; [reflexivity |].
  exfalso. apply N. apply div_lt_iff; [assumption |]. lra.
Qed.

Lemma DSCB_on_right_tail (v : R) : bR <= v -> h v = TR v.
Proof.
  intros Hv. pose proof DSCB_junctions_ordered as Ho.
  destruct (DSCB_right_of_x0 self sigmaL_pos sigmaR_pos alphaL_pos v)
    as [_ E]; [lra |].
  cbv beta. rewrite E.
  destruct (Rlt_dec _ _) as [L | _]; [| reflexivity].
  exfalso. apply div_lt_iff in L; [| assumption]. lra.
Qed.

Lemma TL_continuity (v : R) : v <= bL -> continuity_pt TL v.
Proof.
  intros Hv.
  pose proof (Rdiv_lt_0_compat _ _ nL1_pos alphaL_pos) as Hq.
  apply (continuity_pt_comp (fun v => (v - c) / RooModDSCB.sigmaL self)
           (RooModDSCB.left_power_law (RooModDSCB.nL1 self)
              (RooModDSCB.nL2 self) (RooModDSCB.fL self)
              (RooModDSCB.alphaL self))).
  - apply normalised_continuity.
  - apply left_power_law_continuity; try assumption.
    assert (H : (v - c) / RooModDSCB.sigmaL self <= - RooModDSCB.alphaL self).
    { apply Rnot_lt_le. intros N.
      apply div_gt_iff in N; [| assumption]. lra. }
    lra.
Qed.

Lemma TR_continuity (v : R) : bR <= v -> continuity_pt TR v.
Proof.
  intros Hv.
  pose proof (Rdiv_lt_0_compat _ _ nR1_pos alphaR_pos) as Hq.
  apply (continuity_pt_comp (fun v => (v - c) / RooModDSCB.sigmaR self)
           (RooModDSCB.right_power_law (RooModDSCB.nR1 self)
              (RooModDSCB.nR2 self) (RooModDSCB.fR self)
              (RooModDSCB.alphaR self))).
  - apply normalised_continuity.
  - apply right_power_law_continuity; try assumption.
    assert (H : RooModDSCB.alphaR self <= (v - c) / RooModDSCB.sigmaR self).
    { apply Rnot_lt_le. intros L.
      apply div_lt_iff in L; [| assumption]. lra. }
    lra.
Qed.

(** X4. [evaluate] is a continuous function of [x] on the whole line: inside
    each region, at both core/tail junctions and at [x0], where the two
    Gaussians of different widths meet. *)
Theorem DSCB_continuous (v : R) :
  continuity_pt (fun v => RooModDSCB.evaluate (RooModDSCB.at_x self v)) v.
Proof.
  pose proof DSCB_junctions_ordered as Ho.
  destruct (Rtotal_order v bL) as [H | [H | H]].
  - apply (continuity_pt_glue TL TL h v (bL - v)); try lra.
    + apply TL_continuity. lra.
    + apply TL_continuity. lra.
    + symmetry. apply DSCB_on_left_tail. lra.
    + symmetry. apply DSCB_on_left_tail. lra.
    + intros w Hw. apply Rdist_lt_upper in Hw.
      left. apply DSCB_on_left_tail. lra.
  - subst v.
    apply (continuity_pt_glue TL GL h bL (c - bL)); try lra.
    + apply TL_continuity. lra.
    + apply gaussian_continuity.
    + rewrite DSCB_on_left_core by lra. cbv beta.
      replace ((c - RooModDSCB.alphaL self * RooModDSCB.sigmaL self - c)
               / RooModDSCB.sigmaL self)
        with (- RooModDSCB.alphaL self) by (field; lra).
      rewrite left_power_law_junction by assumption.
      rewrite gauss_arg. f_equal. simpl. ring.
    + symmetry. apply DSCB_on_left_core. lra.
    + intros w Hw. apply Rdist_lt_upper in Hw.
      destruct (Rlt_dec w bL).
      * left. now apply DSCB_on_left_tail.
      * right. apply DSCB_on_left_core. lra.
  - destruct (Rtotal_order v c) as [K | [K | K]].
    + apply (continuity_pt_glue GL GL h v (Rmin (v - bL) (c - v))).
      * apply Rmin_pos; lra.
      * apply gaussian_continuity.
      * apply gaussian_continuity.
      * symmetry. apply DSCB_on_left_core. lra.
      * symmetry. apply DSCB_on_left_core. lra.
      * intros w Hw.
        pose proof (Rmin_l (v - bL) (c - v)). pose proof (Rmin_r (v - bL) (c - v)).
        pose proof (Rdist_lt_upper _ _ _ Hw). pose proof (Rdist_lt_lower _ _ _ Hw).
        left. apply DSCB_on_left_core. lra.
    + subst v.
      apply (continuity_pt_glue GL GR h c (Rmin (c - bL) (bR - c))).
      * apply Rmin_pos; lra.
      * apply gaussian_continuity.
      * apply gaussian_continuity.
      * symmetry. apply DSCB_on_left_core. lra.
      * symmetry. apply DSCB_on_right_core. lra.
      * intros w Hw.
        pose proof (Rmin_l (c - bL) (bR - c)). pose proof (Rmin_r (c - bL) (bR - c)).
        pose proof (Rdist_lt_upper _ _ _ Hw). pose proof (Rdist_lt_lower _ _ _ Hw).
        destruct (Rle_dec w c).
        -- left. apply DSCB_on_left_core. lra.
        -- right. apply DSCB_on_right_core. lra.
    + destruct (Rtotal_order v bR) as [J | [J | J]].
      * apply (continuity_pt_glue GR GR h v (Rmin (v - c) (bR - v))).
        -- apply Rmin_pos; lra.
        -- apply gaussian_continuity.
        -- apply gaussian_continuity.
        -- symmetry. apply DSCB_on_right_core. lra.
        -- symmetry. apply DSCB_on_right_core. lra.
        -- intros w Hw.
           pose proof (Rmin_l (v - c) (bR - v)).
           pose proof (Rmin_r (v - c) (bR - v)).
           pose proof (Rdist_lt_upper _ _ _ Hw).
           pose proof (Rdist_lt_lower _ _ _ Hw).
           left. apply DSCB_on_right_core. lra.
      * subst v.
        apply (continuity_pt_glue GR TR h bR (bR - c)); try lra.
        -- apply gaussian_continuity.
        -- apply TR_continuity. lra.
        -- rewrite DSCB_on_right_tail by lra. cbv beta.
           replace ((c + RooModDSCB.alphaR self * RooModDSCB.sigmaR self - c)
                    / RooModDSCB.sigmaR self)
             with (RooModDSCB.alphaR self) by (field; lra).
           rewrite right_power_law_junction by assumption.
           now rewrite gauss_arg.
        -- symmetry. apply DSCB_on_right_tail. lra.
        -- intros w Hw. apply Rdist_lt_lower in Hw.
           destruct (Rlt_dec w bR).
           ++ left. apply DSCB_on_right_core. lra.
           ++ right. apply DSCB_on_right_tail. lra.
      * apply (continuity_pt_glue TR TR h v (v - bR)); try lra.
        -- apply TR_continuity. lra.
        -- apply TR_continuity. lra.
        -- symmetry. apply DSCB_on_right_tail. lra.
        -- symmetry. apply DSCB_on_right_tail. lra.
        -- intros w Hw. apply Rdist_lt_lower in Hw.
           left. apply DSCB_on_right_tail. lra.
Qed.

End DSCB_continuity.

(** * [RooModDSCB]: changes of parameters *)

(** X5. Only [x - x0] is read: moving [x] and [x0] together changes nothing. *)
Theorem DSCB_translation_invariant (self : RooModDSCB.t) (d : R) :
  RooModDSCB.evaluate (DSCBMaps.translate self d) = RooModDSCB.evaluate self.
Proof.
  unfold RooModDSCB.evaluate, DSCBMaps.translate. dscb_fields.
  replace (RooModDSCB.x self + d - (RooModDSCB.x0 self + d))
    with (RooModDSCB.x self - RooModDSCB.x0 self) by ring.
  reflexivity.
Qed.

Lemma div_rescale (k d s : R) : k <> 0 -> k * d / (k * s) = d / s.
Proof.
  intros Hk. unfold Rdiv. rewrite Rinv_mult.
  replace (k * d * (/ k * / s)) with (k * / k * (d * / s)) by ring.
  rewrite Rinv_r by assumption. ring.
Qed.

(** X6. Only the ratios [(x - x0)/sigma] are read: a change of unit of the
    observable, applied to the distance from [x0] and to both widths,
    changes nothing. *)
Theorem DSCB_scale_invariant (self : RooModDSCB.t) (k : R) :
  k <> 0 ->
  RooModDSCB.evaluate (DSCBMaps.rescale self k) = RooModDSCB.evaluate self.
Proof.
  intros Hk. unfold RooModDSCB.evaluate, DSCBMaps.rescale. dscb_fields.
  replace (RooModDSCB.x0 self + k * (RooModDSCB.x self - RooModDSCB.x0 self)
           - RooModDSCB.x0 self)
    with (k * (RooModDSCB.x self - RooModDSCB.x0 self)) by ring.
  rewrite !div_rescale by assumption.
  reflexivity.
Qed.

(** X7. Reflecting the observable about [x0] while swapping the left and right
    parameters gives the same value: the right tail is the mirror image of
    the left one, also at the junctions, where the two samples fall in
    different branches. *)
Theorem DSCB_mirror_invariant (self : RooModDSCB.t) :
  0 < RooModDSCB.sigmaL self -> 0 < RooModDSCB.sigmaR self ->
  0 < RooModDSCB.alphaL self -> 0 < RooModDSCB.alphaR self ->
  0 < RooModDSCB.nL1 self -> 0 < RooModDSCB.nR1 self ->
  RooModDSCB.evaluate (DSCBMaps.mirror self) = RooModDSCB.evaluate self.
Proof.
  intros HsL HsR HaL HaR HnL HnR.
  unfold RooModDSCB.evaluate, DSCBMaps.mirror. dscb_fields.
  set (d := RooModDSCB.x self - RooModDSCB.x0 self).
  replace (RooModDSCB.x0 self - d - RooModDSCB.x0 self) with (- d) by ring.
  rewrite !Rdiv_opp_l.
  set (zL := d / RooModDSCB.sigmaL self).
  set (zR := d / RooModDSCB.sigmaR self).
  assert (Hsign : (zL < 0 <-> zR < 0) /\ (0 < zL <-> 0 < zR)).
  { unfold zL, zR. split.
    - rewrite !div_lt_iff by assumption. lra.
    - rewrite !div_gt_iff by assumption. lra. }
  pose proof (left_power_law_junction (RooModDSCB.nL1 self)
                (RooModDSCB.nL2 self) (RooModDSCB.fL self) _ HaL HnL) as JL.
  pose proof (right_power_law_junction (RooModDSCB.nR1 self)
                (RooModDSCB.nR2 self) (RooModDSCB.fR self) _ HaR HnR) as JR.
  rewrite !gauss_arg.
  destruct (Rlt_dec zL (-1.0 * RooModDSCB.alphaL self)) as [A | A].
  - destruct (Rlt_dec (- zR) (-1.0 * RooModDSCB.alphaR self)); [lra |].
    destruct (Rlt_dec (- zR) 0); [lra |].
    destruct (Rlt_dec (- zL) (RooModDSCB.alphaL self)); [lra |].
    apply right_power_law_mirror.
  - destruct (Rlt_dec zL 0) as [B | B].
    + destruct (Rlt_dec (- zR) (-1.0 * RooModDSCB.alphaR self)); [lra |].
      destruct (Rlt_dec (- zR) 0); [lra |].
      destruct (Rlt_dec (- zL) (RooModDSCB.alphaL self)) as [C | C].
      * f_equal. simpl. ring.
      * assert (E : zL = - RooModDSCB.alphaL self) by lra.
        rewrite right_power_law_mirror, E, JL, gauss_arg.
        f_equal. simpl. ring.
    + destruct (Rlt_dec zR (RooModDSCB.alphaR self)) as [C | C].
      * destruct (Rlt_dec (- zR) (-1.0 * RooModDSCB.alphaR self)); [lra |].
        destruct (Rlt_dec (- zR) 0); [f_equal; simpl; ring |].
        assert (E : zR = 0) by lra.
        assert (E' : zL = 0) by lra.
        destruct (Rlt_dec (- zL) (RooModDSCB.alphaL self)); [| lra].
        rewrite E, E'. f_equal. simpl. ring.
      * destruct (Rlt_dec (- zR) (-1.0 * RooModDSCB.alphaR self)) as [D | D].
        -- apply left_power_law_mirror.
        -- assert (E : zR = RooModDSCB.alphaR self) by lra.
           destruct (Rlt_dec (- zR) 0); [| lra].
           rewrite E, JR, gauss_arg. f_equal. simpl. ring.
Qed.

(** * [RooModDSCB]: directions the value does not depend on *)





(** * [RooGaussBern]: the two index conventions *)

Lemma sum_f_R0_reverse (f : nat -> R) (m : nat) :
  sum_f_R0 f m = sum_f_R0 (fun i => f (m - i)%nat) m.
Proof.
  revert f. induction m as [| m IH]; intros f.
  - reflexivity.
  - rewrite (decomp_sum (fun i => f (S m - i)%nat)) by lia.
    rewrite tech5. simpl pred. rewrite Nat.sub_0_r.
    rewrite (IH f).
    change (fun i => f (S m - S i)%nat) with (fun i => f (m - i)%nat).
    ring.
Qed.

(** X12. The right tail with coefficient list [c] is the left tail with the list
    reversed, read at [1 - u]: the two loops anchor opposite ends of the
    same polynomial family. *)
Theorem right_polynomial_reverse (c : list R) (alpha u : R) :
  RooGaussBern.right_polynomial c alpha u
  = RooGaussBern.left_polynomial (rev c) alpha (1 - u).
Proof.
  rewrite right_polynomial_sum, left_polynomial_sum.
  unfold BernsteinSpec.right_tail, BernsteinSpec.left_tail,
    BernsteinSpec.tail_sum.
  rewrite length_rev. set (m := length c).
  rewrite (sum_f_R0_reverse
             (fun i => BernsteinSpec.termCoef_left (BernsteinSpec.coef0 alpha)
                         (rev c) i * (1 - u) ^ i * (1 - (1 - u)) ^ (m - i))).
  apply sum_eq. intros i Hi.
  replace (1 - (1 - u)) with u by ring.
  replace (m - (m - i))%nat with i by lia.
  assert (Ec : BernsteinSpec.termCoef_right (BernsteinSpec.coef0 alpha) c i
               = BernsteinSpec.termCoef_left (BernsteinSpec.coef0 alpha)
                   (rev c) (m - i)).
  { unfold BernsteinSpec.termCoef_right, BernsteinSpec.termCoef_left.
    rewrite length_rev. fold m.
    destruct i as [| j].
    - rewrite Nat.sub_0_r, Nat.ltb_irrefl. reflexivity.
    - assert (Hlt : (m - S j < m)%nat) by lia.
      apply Nat.ltb_lt in Hlt as Hb. rewrite Hb.
      rewrite rev_nth by (fold m; lia). fold m.
      replace (m - S (m - S j))%nat with j by lia. reflexivity. }
  rewrite Ec. ring.
Qed.

(** * [RooGaussBern]: the tails at the domain edges *)

Lemma left_polynomial_at_0 (c : list R) (alpha : R) :
  RooGaussBern.left_polynomial c alpha 0
  = exp (-0.5 * alpha ^ 2) * nth 0 c 1.
Proof.
  destruct c as [| c0 rest].
  - rewrite left_polynomial_nil. simpl. ring.
  - rewrite left_polynomial_sum.
    unfold BernsteinSpec.left_tail, BernsteinSpec.tail_sum.
    rewrite decomp_sum by (simpl; lia).
    rewrite sum_f_R0_zero by (intros i _; simpl; ring).
    unfold BernsteinSpec.termCoef_left, BernsteinSpec.coef0.
    cbn [length nth Nat.ltb Nat.leb]. rewrite Rminus_0_r, pow1. simpl. ring.
Qed.

Lemma right_polynomial_at_1 (c : list R) (alpha : R) :
  RooGaussBern.right_polynomial c alpha 1
  = exp (-0.5 * alpha ^ 2) * nth (length c - 1) c 1.
Proof.
  rewrite right_polynomial_sum.
  unfold BernsteinSpec.right_tail, BernsteinSpec.tail_sum.
  destruct c as [| c0 rest].
  - simpl. unfold BernsteinSpec.coef0. simpl. ring.
  - set (l := c0 :: rest).
    assert (El : length l = S (length rest)) by reflexivity.
    rewrite El, tech5, Nat.sub_diag, pow1.
    rewrite sum_f_R0_zero.
    + unfold BernsteinSpec.termCoef_right, BernsteinSpec.coef0.
      replace (S (length rest) - 1)%nat with (length rest) by lia.
      rewrite (nth_indep l 0 1) by (rewrite El; lia).
      simpl. ring.
    + intros i Hi.
      replace (S (length rest) - i)%nat with (S (length rest - i)) by lia.
      simpl. ring.
Qed.

(** X13. With the junctions strictly inside the domain, the value at the lower
    edge is the left junction value times the first left coefficient, and
    the value at the upper edge is the right junction value times the last
    right coefficient (times [1] when the list is empty): the coefficients
    are relative to the junction value. *)
Theorem GaussBern_edge_values (self : RooGaussBern.t) :
  0 < RooGaussBern.sigma self ->
  0 < RooGaussBern.alphaL self ->
  0 < RooGaussBern.alphaR self ->
  RooGaussBern.x_min self
    < RooGaussBern.x0 self - RooGaussBern.alphaL self * RooGaussBern.sigma self ->
  RooGaussBern.x0 self + RooGaussBern.alphaR self * RooGaussBern.sigma self
    < RooGaussBern.x_max self ->
  RooGaussBern.evaluate (RooGaussBern.at_x self (RooGaussBern.x_min self))
  = exp (-0.5 * RooGaussBern.alphaL self ^ 2)
    * nth 0 (RooGaussBern.bernCoefsL self) 1 /\
  RooGaussBern.evaluate (RooGaussBern.at_x self (RooGaussBern.x_max self))
  = exp (-0.5 * RooGaussBern.alphaR self ^ 2)
    * nth (length (RooGaussBern.bernCoefsR self) - 1)
        (RooGaussBern.bernCoefsR self) 1.
Proof.
  destruct self as [v lo hi c s aL aR cL cR]. unfold RooGaussBern.at_x.
  cbn [RooGaussBern.x RooGaussBern.x_min RooGaussBern.x_max RooGaussBern.x0
       RooGaussBern.sigma RooGaussBern.alphaL RooGaussBern.alphaR
       RooGaussBern.bernCoefsL RooGaussBern.bernCoefsR].
  intros Hs HaL HaR Hlo Hhi. split.
  - rewrite GaussBern_left_tail by now apply shape_classify_left.
    unfold RooGaussBern.left_x_scaled.
    cbn [RooGaussBern.x RooGaussBern.x_min RooGaussBern.x0
         RooGaussBern.sigma RooGaussBern.alphaL RooGaussBern.bernCoefsL].
    replace ((lo - lo) / (c - aL * s - lo)) with 0 by (unfold Rdiv; ring).
    apply left_polynomial_at_0.
  - rewrite GaussBern_right_tail by (apply shape_classify_right; lra).
    unfold RooGaussBern.right_x_scaled.
    cbn [RooGaussBern.x RooGaussBern.x_max RooGaussBern.x0
         RooGaussBern.sigma RooGaussBern.alphaR RooGaussBern.bernCoefsR].
    replace ((hi - (c + aR * s)) / (hi - (c + aR * s))) with 1 by (field; lra).
    apply right_polynomial_at_1.
Qed.

(** * [RooGaussBern]: bounds and order in the coefficients *)

(** The basis terms [u^i (1-u)^(m-i)], without binomial factors, add up to
    at most [1] on [[0,1]]. *)
Lemma basis_sum_le_1 (m : nat) (u : R) :
  0 <= u <= 1 -> sum_f_R0 (fun i => u ^ i * (1 - u) ^ (m - i)) m <= 1.
Proof.
  intros Hu. induction m as [| m IH].
  - simpl. lra.
  - rewrite tech5, Nat.sub_diag.
    rewrite (sum_eq _ (fun i => u ^ i * (1 - u) ^ (m - i) * (1 - u))).
    + rewrite <- scal_sum.
      pose proof (pow_le u m (proj1 Hu)) as H0.
      pose proof (pow_incr u 1 m Hu) as H1. rewrite pow1 in H1.
      simpl. nra.
    + intros i Hi. replace (S m - i)%nat with (S (m - i)) by lia.
      simpl. ring.
Qed.

Lemma tail_sum_le (termCoef : nat -> R) (K : R) (m : nat) (u : R) :
  (forall i, 0 <= termCoef i <= K) -> 0 <= u <= 1 ->
  BernsteinSpec.tail_sum termCoef m u <= K.
Proof.
  intros Ht Hu. unfold BernsteinSpec.tail_sum.
  assert (HK : 0 <= K) by (destruct (Ht 0%nat); lra).
  apply Rle_trans
    with (sum_f_R0 (fun i => u ^ i * (1 - u) ^ (m - i) * K) m).
  - apply sum_Rle. intros i _.
    pose proof (pow_le u i (proj1 Hu)).
    pose proof (pow_le (1 - u) (m - i) ltac:(lra)).
    destruct (Ht i) as [_ Hi].
    rewrite Rmult_assoc, (Rmult_comm _ K).
    apply Rmult_le_compat_r; [| exact Hi].
    now apply Rmult_le_pos.
  - rewrite <- scal_sum. pose proof (basis_sum_le_1 m u Hu). nra.
Qed.

Lemma tail_sum_monotone (t t' : nat -> R) (m : nat) (u : R) :
  (forall i, t i <= t' i) -> 0 <= u <= 1 ->
  BernsteinSpec.tail_sum t m u <= BernsteinSpec.tail_sum t' m u.
Proof.
  intros Ht Hu. unfold BernsteinSpec.tail_sum.
  apply sum_Rle. intros i _.
  pose proof (pow_le u i (proj1 Hu)).
  pose proof (pow_le (1 - u) (m - i) ltac:(lra)).
  rewrite !Rmult_assoc. apply Rmult_le_compat_r; [| apply Ht].
  now apply Rmult_le_pos.
Qed.

Lemma nth_unit (coefs : list R) (i : nat) :
  Forall (fun c => 0 <= c <= 1) coefs -> 0 <= nth i coefs 0 <= 1.
Proof.
  intros H. revert i.
  induction H as [| c l Hc _ IH]; intros [| i]; simpl; auto; lra.
Qed.

Lemma nth_Forall2_le (l l' : list R) (i : nat) :
  Forall2 Rle l l' -> nth i l 0 <= nth i l' 0.
Proof.
  intros H. revert i.
  induction H as [| c c' l l' Hc _ IH]; intros [| i]; simpl; auto; lra.
Qed.

Lemma left_polynomial_le_junction (coefs : list R) (alpha u : R) :
  Forall (fun c => 0 <= c <= 1) coefs -> 0 <= u <= 1 ->
  RooGaussBern.left_polynomial coefs alpha u <= exp (-0.5 * alpha ^ 2).
Proof.
  intros Hc Hu. rewrite left_polynomial_sum.
  apply tail_sum_le; [| assumption].
  intros i. unfold BernsteinSpec.termCoef_left, BernsteinSpec.coef0.
  pose proof (exp_pos (-0.5 * alpha ^ 2)) as He.
  pose proof (nth_unit coefs i Hc) as Hn.
  destruct (i <? length coefs)%nat; [nra | lra].
Qed.

Lemma right_polynomial_le_junction (coefs : list R) (alpha u : R) :
  Forall (fun c => 0 <= c <= 1) coefs -> 0 <= u <= 1 ->
  RooGaussBern.right_polynomial coefs alpha u <= exp (-0.5 * alpha ^ 2).
Proof.
  intros Hc Hu. rewrite right_polynomial_sum.
  apply tail_sum_le; [| assumption].
  intros i. unfold BernsteinSpec.termCoef_right, BernsteinSpec.coef0.
  pose proof (exp_pos (-0.5 * alpha ^ 2)) as He.
  destruct i as [| j]; [lra |].
  pose proof (nth_unit coefs j Hc) as Hn. nra.
Qed.

Lemma Forall_unit_nonneg (coefs : list R) :
  Forall (fun c => 0 <= c <= 1) coefs -> Forall (fun c => 0 <= c) coefs.
Proof.
  intros H. eapply Forall_impl; [| exact H]. simpl. intros a Ha. lra.
Qed.

(** X14. With every coefficient in [[0,1]], a tail stays at or below its junction
    value on [[0,1]], and the value returned inside the domain lies in
    [[0,1]]. *)
Theorem GaussBern_unit_coefficients (self : RooGaussBern.t) :
  Forall (fun c => 0 <= c <= 1) (RooGaussBern.bernCoefsL self) ->
  Forall (fun c => 0 <= c <= 1) (RooGaussBern.bernCoefsR self) ->
  (forall u : R, 0 <= u <= 1 ->
     RooGaussBern.left_polynomial (RooGaussBern.bernCoefsL self)
       (RooGaussBern.alphaL self) u
     <= exp (-0.5 * RooGaussBern.alphaL self ^ 2) /\
     RooGaussBern.right_polynomial (RooGaussBern.bernCoefsR self)
       (RooGaussBern.alphaR self) u
     <= exp (-0.5 * RooGaussBern.alphaR self ^ 2)) /\
  (0 < RooGaussBern.sigma self ->
   RooGaussBern.x_min self <= RooGaussBern.x self <= RooGaussBern.x_max self ->
   RooGaussBern.x0 self + RooGaussBern.alphaR self * RooGaussBern.sigma self
     <> RooGaussBern.x_max self ->
   0 <= RooGaussBern.evaluate self <= 1).
Proof.
  intros HL HR. split.
  - intros u Hu. split.
    + now apply left_polynomial_le_junction.
    + now apply right_polynomial_le_junction.
  - intros Hs [Hlo Hhi] Hne.
    pose proof (left_x_scaled_in_domain self Hs Hlo) as HuL.
    pose proof (right_x_scaled_in_domain self Hs Hhi Hne) as HuR.
    split.
    + apply evaluate_nonneg; auto using Forall_unit_nonneg.
    + destruct (RooGaussBern.classify self) eqn:E.
      * rewrite (GaussBern_left_tail self E).
        eapply Rle_trans; [apply left_polynomial_le_junction; auto |].
        apply gauss_le_1.
      * rewrite (GaussBern_core self E). apply gauss_le_1.
      * rewrite (GaussBern_right_tail self E).
        eapply Rle_trans; [apply right_polynomial_le_junction; auto |].
        apply gauss_le_1.
Qed.

Lemma left_polynomial_monotone (c c' : list R) (alpha u : R) :
  Forall2 Rle c c' -> 0 <= u <= 1 ->
  RooGaussBern.left_polynomial c alpha u
  <= RooGaussBern.left_polynomial c' alpha u.
Proof.
  intros Hc Hu. rewrite !left_polynomial_sum.
  unfold BernsteinSpec.left_tail. rewrite (Forall2_length Hc).
  apply tail_sum_monotone; [| assumption].
  intros i. unfold BernsteinSpec.termCoef_left, BernsteinSpec.coef0.
  rewrite (Forall2_length Hc).
  pose proof (exp_pos (-0.5 * alpha ^ 2)) as He.
  pose proof (nth_Forall2_le c c' i Hc) as Hn.
  destruct (i <? length c')%nat; [nra | lra].
Qed.

Lemma right_polynomial_monotone (c c' : list R) (alpha u : R) :
  Forall2 Rle c c' -> 0 <= u <= 1 ->
  RooGaussBern.right_polynomial c alpha u
  <= RooGaussBern.right_polynomial c' alpha u.
Proof.
  intros Hc Hu. rewrite !right_polynomial_sum.
  unfold BernsteinSpec.right_tail. rewrite (Forall2_length Hc).
  apply tail_sum_monotone; [| assumption].
  intros i. unfold BernsteinSpec.termCoef_right, BernsteinSpec.coef0.
  pose proof (exp_pos (-0.5 * alpha ^ 2)) as He.
  destruct i as [| j]; [lra |].
  pose proof (nth_Forall2_le c c' j Hc) as Hn. nra.
Qed.

(** X15. Inside the domain, raising coefficients (entry by entry, lists of the
    same length) never lowers the value. *)
Theorem GaussBern_monotone_in_coefficients
    (self : RooGaussBern.t) (cl cr : list R) :
  Forall2 Rle (RooGaussBern.bernCoefsL self) cl ->
  Forall2 Rle (RooGaussBern.bernCoefsR self) cr ->
  0 < RooGaussBern.sigma self ->
  RooGaussBern.x_min self <= RooGaussBern.x self <= RooGaussBern.x_max self ->
  RooGaussBern.x0 self + RooGaussBern.alphaR self * RooGaussBern.sigma self
    <> RooGaussBern.x_max self ->
  RooGaussBern.evaluate self
  <= RooGaussBern.evaluate (RooGaussBern.with_coefs self cl cr).
Proof.
  intros HL HR Hs [Hlo Hhi] Hne.
  pose proof (left_x_scaled_in_domain self Hs Hlo) as HuL.
  pose proof (right_x_scaled_in_domain self Hs Hhi Hne) as HuR.
  assert (Ec : RooGaussBern.classify (RooGaussBern.with_coefs self cl cr)
               = RooGaussBern.classify self) by reflexivity.
  destruct (RooGaussBern.classify self) eqn:E.
  - rewrite (GaussBern_left_tail self E), (GaussBern_left_tail _ Ec).
    apply left_polynomial_monotone; auto.
  - rewrite (GaussBern_core self E), (GaussBern_core _ Ec). right. reflexivity.
  - rewrite (GaussBern_right_tail self E), (GaussBern_right_tail _ Ec).
    apply right_polynomial_monotone; auto.
Qed.

(** * [RooGaussBern]: translation *)

(** X16. Only differences of positions are read: moving [x], [x0] and both
    domain edges together changes nothing. *)
Theorem GaussBern_translation_invariant (self : RooGaussBern.t) (d : R) :
  RooGaussBern.evaluate (GaussBernMaps.translate self d)
  = RooGaussBern.evaluate self.
Proof.
  unfold RooGaussBern.evaluate, RooGaussBern.left_x_scaled,
    RooGaussBern.right_x_scaled, GaussBernMaps.translate.
  cbn [RooGaussBern.x RooGaussBern.x_min RooGaussBern.x_max RooGaussBern.x0
       RooGaussBern.sigma RooGaussBern.alphaL RooGaussBern.alphaR
       RooGaussBern.bernCoefsL RooGaussBern.bernCoefsR].
  replace (RooGaussBern.x self + d - (RooGaussBern.x0 self + d))
    with (RooGaussBern.x self - RooGaussBern.x0 self) by ring.
  replace (RooGaussBern.x self + d - (RooGaussBern.x_min self + d))
    with (RooGaussBern.x self - RooGaussBern.x_min self) by ring.
  replace (RooGaussBern.x0 self + d
           - RooGaussBern.alphaL self * RooGaussBern.sigma self
           - (RooGaussBern.x_min self + d))
    with (RooGaussBern.x0 self
          - RooGaussBern.alphaL self * RooGaussBern.sigma self
          - RooGaussBern.x_min self) by ring.
  replace (RooGaussBern.x self + d
           - (RooGaussBern.x0 self + d
              + RooGaussBern.alphaR self * RooGaussBern.sigma self))
    with (RooGaussBern.x self
          - (RooGaussBern.x0 self
             + RooGaussBern.alphaR self * RooGaussBern.sigma self)) by ring.
  replace (RooGaussBern.x_max self + d
           - (RooGaussBern.x0 self + d
              + RooGaussBern.alphaR self * RooGaussBern.sigma self))
    with (RooGaussBern.x_max self
          - (RooGaussBern.x0 self
             + RooGaussBern.alphaR self * RooGaussBern.sigma self)) by ring.
  reflexivity.
Qed.

(** * [RooGaussBern]: the core *)

(** X17. In the core the value is at most [1], and it is [1] exactly at
    [x = x0]; [x0] is in the core as soon as [alphaL >= 0] and
    [alphaR > 0]. *)
Theorem GaussBern_core_maximum (self : RooGaussBern.t) :
  RooGaussBern.sigma self <> 0 ->
  (0 <= RooGaussBern.alphaL self -> 0 < RooGaussBern.alphaR self ->
   RooGaussBern.classify (RooGaussBern.at_x self (RooGaussBern.x0 self))
   = RooGaussBern.Core) /\
  (RooGaussBern.classify self = RooGaussBern.Core ->
   RooGaussBern.evaluate self <= 1 /\
   (RooGaussBern.evaluate self = 1
    <-> RooGaussBern.x self = RooGaussBern.x0 self)).
Proof.
  intros Hs. split.
  - intros HaL HaR. apply GaussBern_classify_core. unfold RooGaussBern.at_x.
    cbn [RooGaussBern.x RooGaussBern.x0 RooGaussBern.sigma
         RooGaussBern.alphaL RooGaussBern.alphaR].
    replace ((RooGaussBern.x0 self - RooGaussBern.x0 self)
             / RooGaussBern.sigma self) with 0 by (unfold Rdiv; ring).
    lra.
  - intros E. rewrite (GaussBern_core self E).
    set (d := RooGaussBern.x self - RooGaussBern.x0 self).
    split; [apply gauss_le_1 |].
    split.
    + intros H. apply Rminus_diag_uniq. fold d.
      destruct (Req_dec (d / RooGaussBern.sigma self) 0) as [Z | Z].
      * apply (f_equal (fun t => t * RooGaussBern.sigma self)) in Z.
        unfold Rdiv in Z. rewrite Rmult_assoc, Rinv_l in Z; lra.
      * pose proof (gauss_lt_1 _ Z). lra.
    + intros H. assert (D0 : d = 0) by (unfold d; lra).
      rewrite D0. unfold Rdiv. rewrite Rmult_0_l.
      replace (-0.5 * 0 ^ 2) with 0 by (simpl; lra). apply exp_0.
Qed.

(** * [RooGaussBern]: continuity on the whole line *)

Section GaussBern_continuity.

Variables lo hi c s aL aR : R.
Variables cL cR : list R.

Hypothesis s_pos : 0 < s.
Hypothesis aL_pos : 0 < aL.
Hypothesis aR_pos : 0 < aR.
Hypothesis lo_left : lo < c - aL * s.
Hypothesis hi_right : c + aR * s < hi.

Local Abbreviation shape v := (RooGaussBern.mk v lo hi c s aL aR cL cR).

Lemma shape_continuous (v : R) :
  continuity_pt (fun w => RooGaussBern.evaluate (shape w)) v.
Proof.
  assert (Hpos : 0 < aL * s /\ 0 < aR * s)
    by (split; apply Rmult_lt_0_compat; assumption).
  destruct (Rtotal_order v (c - aL * s)) as [H | [H | H]].
  - apply (continuity_pt_glue
             (fun w => BernsteinSpec.tail_sum
                (BernsteinSpec.termCoef_left (BernsteinSpec.coef0 aL) cL)
                (length cL) ((w - lo) / (c - aL * s - lo)))
             (fun w => BernsteinSpec.tail_sum
                (BernsteinSpec.termCoef_left (BernsteinSpec.coef0 aL) cL)
                (length cL) ((w - lo) / (c - aL * s - lo)))
             _ v (c - aL * s - v)); try lra;
      try apply tail_sum_continuity.
    + rewrite GaussBern_left_tail by now apply shape_classify_left.
      now rewrite left_polynomial_sum.
    + rewrite GaussBern_left_tail by now apply shape_classify_left.
      now rewrite left_polynomial_sum.
    + intros w Hw. apply Rdist_lt_upper in Hw. left.
      rewrite GaussBern_left_tail by (apply shape_classify_left; lra).
      now rewrite left_polynomial_sum.
  - subst v. now apply shape_left_junction_continuous.
  - destruct (Rtotal_order v (c + aR * s)) as [K | [K | K]].
    + apply (continuity_pt_glue
               (fun w => exp (-0.5 * ((w - c) / s) ^ 2))
               (fun w => exp (-0.5 * ((w - c) / s) ^ 2))
               _ v (Rmin (v - (c - aL * s)) (c + aR * s - v)));
        try apply gaussian_continuity.
      * apply Rmin_pos; lra.
      * now rewrite GaussBern_core by (apply shape_classify_core; lra).
      * now rewrite GaussBern_core by (apply shape_classify_core; lra).
      * intros w Hw.
        pose proof (Rmin_l (v - (c - aL * s)) (c + aR * s - v)).
        pose proof (Rmin_r (v - (c - aL * s)) (c + aR * s - v)).
        pose proof (Rdist_lt_upper _ _ _ Hw).
        pose proof (Rdist_lt_lower _ _ _ Hw).
        left. now rewrite GaussBern_core by (apply shape_classify_core; lra).
    + subst v. now apply shape_right_junction_continuous.
    + apply (continuity_pt_glue
             (fun w => BernsteinSpec.tail_sum
                (BernsteinSpec.termCoef_right (BernsteinSpec.coef0 aR) cR)
                (length cR) ((w - (c + aR * s)) / (hi - (c + aR * s))))
             (fun w => BernsteinSpec.tail_sum
                (BernsteinSpec.termCoef_right (BernsteinSpec.coef0 aR) cR)
                (length cR) ((w - (c + aR * s)) / (hi - (c + aR * s))))
             _ v (v - (c + aR * s))); try lra;
        try apply tail_sum_continuity.
      * rewrite GaussBern_right_tail by (apply shape_classify_right; lra).
        now rewrite right_polynomial_sum.
      * rewrite GaussBern_right_tail by (apply shape_classify_right; lra).
        now rewrite right_polynomial_sum.
      * intros w Hw. apply Rdist_lt_lower in Hw. left.
        rewrite GaussBern_right_tail by (apply shape_classify_right; lra).
        now rewrite right_polynomial_sum.
Qed.

End GaussBern_continuity.

(** X18. With [sigma > 0], positive boundary parameters and the junctions
    strictly inside the domain, [evaluate] is a continuous function of [x]
    on the whole line. *)
Theorem GaussBern_continuous (self : RooGaussBern.t) (v : R) :
  0 < RooGaussBern.sigma self ->
  0 < RooGaussBern.alphaL self ->
  0 < RooGaussBern.alphaR self ->
  RooGaussBern.x_min self
    < RooGaussBern.x0 self - RooGaussBern.alphaL self * RooGaussBern.sigma self ->
  RooGaussBern.x0 self + RooGaussBern.alphaR self * RooGaussBern.sigma self
    < RooGaussBern.x_max self ->
  continuity_pt (fun w => RooGaussBern.evaluate (RooGaussBern.at_x self w)) v.
Proof.
  destruct self as [v0 lo hi c s aL aR cL cR]. unfold RooGaussBern.at_x.
  cbn [RooGaussBern.x RooGaussBern.x_min RooGaussBern.x_max RooGaussBern.x0
       RooGaussBern.sigma RooGaussBern.alphaL RooGaussBern.alphaR
       RooGaussBern.bernCoefsL RooGaussBern.bernCoefsR].
  intros. now apply shape_continuous.
Qed.

(** * The regions in units of the observable *)

(** X10. With positive widths and boundary parameters the four branches of
    [RooModDSCB::evaluate] are taken on four consecutive intervals of [x]:
    below [x0 - alphaL*sigmaL], up to [x0], up to [x0 + alphaR*sigmaR], and
    from there on. *)
Theorem DSCB_regions_in_x (self : RooModDSCB.t) :
  0 < RooModDSCB.sigmaL self -> 0 < RooModDSCB.sigmaR self ->
  0 < RooModDSCB.alphaL self -> 0 < RooModDSCB.alphaR self ->
  let x := RooModDSCB.x self in
  let x0 := RooModDSCB.x0 self in
  let bL := x0 - RooModDSCB.alphaL self * RooModDSCB.sigmaL self in
  let bR := x0 + RooModDSCB.alphaR self * RooModDSCB.sigmaR self in
  (RooModDSCB.classify self = RooModDSCB.LeftTail <-> x < bL) /\
  (RooModDSCB.classify self = RooModDSCB.CoreLeft <-> bL <= x < x0) /\
  (RooModDSCB.classify self = RooModDSCB.CoreRight <-> x0 <= x < bR) /\
  (RooModDSCB.classify self = RooModDSCB.RightTail <-> bR <= x).
Proof.
  intros HsL HsR HaL HaR x x0 bL bR.
  pose proof (Rmult_lt_0_compat _ _ HaL HsL) as HpL.
  pose proof (Rmult_lt_0_compat _ _ HaR HsR) as HpR.
  unfold RooModDSCB.classify. fold x x0.
  destruct (Rlt_dec ((x - x0) / RooModDSCB.sigmaL self)
              (-1.0 * RooModDSCB.alphaL self)) as [A | A];
    [| destruct (Rlt_dec ((x - x0) / RooModDSCB.sigmaL self) 0) as [B | B];
       [| destruct (Rlt_dec ((x - x0) / RooModDSCB.sigmaR self)
                     (RooModDSCB.alphaR self)) as [C | C]]];
    rewrite div_lt_iff in * by assumption;
    unfold bL, bR;
    repeat split; intros; try discriminate; try reflexivity; lra.
Qed.

(** X19. With [sigma > 0] the three branches of [RooGaussBern::evaluate] are
    taken below [x0 - alphaL*sigma], between the two junctions, and from
    [x0 + alphaR*sigma] on (when the junctions are in this order). *)
Theorem GaussBern_regions_in_x (self : RooGaussBern.t) :
  0 < RooGaussBern.sigma self ->
  - RooGaussBern.alphaL self <= RooGaussBern.alphaR self ->
  let x := RooGaussBern.x self in
  let bL :=
    RooGaussBern.x0 self - RooGaussBern.alphaL self * RooGaussBern.sigma self in
  let bR :=
    RooGaussBern.x0 self + RooGaussBern.alphaR self * RooGaussBern.sigma self in
  (RooGaussBern.classify self = RooGaussBern.LeftTail <-> x < bL) /\
  (RooGaussBern.classify self = RooGaussBern.Core <-> bL <= x < bR) /\
  (RooGaussBern.classify self = RooGaussBern.RightTail <-> bR <= x).
Proof.
  intros Hs Hord x bL bR.
  assert (Hb : bL <= bR).
  { unfold bL, bR.
    pose proof (Rmult_le_compat_r (RooGaussBern.sigma self) _ _
                  (Rlt_le _ _ Hs) Hord). lra. }
  unfold RooGaussBern.classify. fold x.
  destruct (Rlt_dec ((x - RooGaussBern.x0 self) / RooGaussBern.sigma self)
              (-1.0 * RooGaussBern.alphaL self)) as [A | A];
    [| destruct (Rlt_dec ((x - RooGaussBern.x0 self) / RooGaussBern.sigma self)
                  (RooGaussBern.alphaR self)) as [C | C]];
    rewrite div_lt_iff in * by assumption;
    unfold bL, bR in *;
    repeat split; intros; try discriminate; try reflexivity; lra.
Qed.

(** * Branches that are never taken under degenerate boundary parameters *)

(** X11. With [alphaL <= 0] the left Gaussian branch is never taken (the left
    tail reaches [x0]); with positive widths and [alphaR <= 0] the right
    Gaussian branch is never taken. *)
Theorem DSCB_core_empty (self : RooModDSCB.t) :
  (RooModDSCB.alphaL self <= 0 ->
   RooModDSCB.classify self <> RooModDSCB.CoreLeft) /\
  (0 < RooModDSCB.sigmaL self -> 0 < RooModDSCB.sigmaR self ->
   RooModDSCB.alphaR self <= 0 ->
   RooModDSCB.classify self <> RooModDSCB.CoreRight).
Proof.
  unfold RooModDSCB.classify. split.
  - intros Ha.
    destruct (Rlt_dec _ (-1.0 * RooModDSCB.alphaL self)); [discriminate |].
    destruct (Rlt_dec _ 0); [lra |].
    destruct (Rlt_dec _ _); discriminate.
  - intros HsL HsR Ha.
    destruct (Rlt_dec _ (-1.0 * RooModDSCB.alphaL self)); [discriminate |].
    destruct (Rlt_dec _ 0) as [| B]; [discriminate |].
    destruct (Rlt_dec _ _) as [C |]; [| discriminate].
    exfalso. rewrite div_lt_iff in B, C by assumption.
    pose proof (Rmult_le_compat_r (RooModDSCB.sigmaR self) _ _
                  (Rlt_le _ _ HsR) Ha).
    lra.
Qed.

(** X20. With [alphaL + alphaR <= 0] the Gaussian branch of [RooGaussBern] is
    never taken: every sample is evaluated by a polynomial tail. *)
Theorem GaussBern_core_empty (self : RooGaussBern.t) :
  RooGaussBern.alphaL self + RooGaussBern.alphaR self <= 0 ->
  RooGaussBern.classify self <> RooGaussBern.Core.
Proof.
  intros Ha. unfold RooGaussBern.classify.
  destruct (Rlt_dec _ (-1.0 * RooGaussBern.alphaL self)); [discriminate |].
  destruct (Rlt_dec _ _); [lra | discriminate].
Qed.

(** * Instances of the properties above *)


Lemma DSCB_maximum_at_x0_witness :
  RooModDSCB.evaluate (RooModDSCB.unit_shape 0) = 1.
Proof.
  apply (DSCB_maximum_at_x0 (RooModDSCB.unit_shape 0));
    simpl; try lra; reflexivity.
Defined.

Lemma DSCB_unimodal_witness :
  RooModDSCB.evaluate (RooModDSCB.at_x (RooModDSCB.unit_shape 0) (-2))
  < RooModDSCB.evaluate (RooModDSCB.at_x (RooModDSCB.unit_shape 0) (-0.5)) /\
  RooModDSCB.evaluate (RooModDSCB.at_x (RooModDSCB.unit_shape 0) 3)
  < RooModDSCB.evaluate (RooModDSCB.at_x (RooModDSCB.unit_shape 0) 0.5).
Proof.
  split.
  - refine (proj1 (DSCB_unimodal (RooModDSCB.unit_shape 0)
                     _ _ _ _ _ _ _ _ (-2) (-0.5) _) _); simpl; lra.
  - refine (proj2 (DSCB_unimodal (RooModDSCB.unit_shape 0)
                     _ _ _ _ _ _ _ _ 0.5 3 _) _); simpl; lra.
Defined.

Lemma DSCB_continuous_witness :
  continuity_pt
    (fun v => RooModDSCB.evaluate (RooModDSCB.at_x (RooModDSCB.unit_shape 0) v))
    (-1).
Proof.
  apply (DSCB_continuous (RooModDSCB.unit_shape 0)); simpl; lra.
Defined.

Lemma DSCB_scale_invariant_witness :
  RooModDSCB.evaluate (DSCBMaps.rescale (RooModDSCB.unit_shape 3) 2)
  = RooModDSCB.evaluate (RooModDSCB.unit_shape 3).
Proof.
  apply (DSCB_scale_invariant (RooModDSCB.unit_shape 3) 2). lra.
Defined.

Lemma DSCB_mirror_invariant_witness :
  RooModDSCB.evaluate (DSCBMaps.mirror (RooModDSCB.unit_shape 3))
  = RooModDSCB.evaluate (RooModDSCB.unit_shape 3).
Proof.
  apply (DSCB_mirror_invariant (RooModDSCB.unit_shape 3)); simpl; lra.
Defined.



Lemma DSCB_regions_in_x_witness :
  RooModDSCB.classify (RooModDSCB.unit_shape (-5)) = RooModDSCB.LeftTail /\
  RooModDSCB.classify (RooModDSCB.unit_shape 1) = RooModDSCB.RightTail.
Proof.
  split.
  - apply (DSCB_regions_in_x (RooModDSCB.unit_shape (-5))); simpl; lra.
  - apply (DSCB_regions_in_x (RooModDSCB.unit_shape 1)); simpl; lra.
Defined.

Lemma DSCB_core_empty_witness :
  RooModDSCB.classify (RooModDSCB.mk (-0.5) 0 1 1 (-1) 2 2 1 1 2 2 1)
  <> RooModDSCB.CoreLeft.
Proof.
  destruct (DSCB_core_empty (RooModDSCB.mk (-0.5) 0 1 1 (-1) 2 2 1 1 2 2 1))
    as [H _].
  apply H. simpl. lra.
Defined.

Lemma GaussBern_edge_values_witness :
  RooGaussBern.evaluate (RooGaussBern.unit_shape [2; 3] [4; 5] (-5))
    = exp (-0.5 * 1.5 ^ 2) * 2 /\
  RooGaussBern.evaluate (RooGaussBern.unit_shape [2; 3] [4; 5] 5)
    = exp (-0.5 * 1.5 ^ 2) * 5.
Proof.
  apply (GaussBern_edge_values (RooGaussBern.unit_shape [2; 3] [4; 5] 0));
    simpl; lra.
Defined.

Lemma GaussBern_unit_coefficients_witness :
  0 <= RooGaussBern.evaluate (RooGaussBern.unit_shape [0.5] [1] (-3)) <= 1.
Proof.
  destruct (GaussBern_unit_coefficients
              (RooGaussBern.unit_shape [0.5] [1] (-3))) as [_ H].
  - simpl. repeat constructor; lra.
  - simpl. repeat constructor; lra.
  - apply H; simpl; lra.
Defined.

Lemma GaussBern_monotone_in_coefficients_witness :
  RooGaussBern.evaluate (RooGaussBern.unit_shape [1] [1] (-3))
  <= RooGaussBern.evaluate (RooGaussBern.unit_shape [2] [1] (-3)).
Proof.
  apply (GaussBern_monotone_in_coefficients
           (RooGaussBern.unit_shape [1] [1] (-3)) [2] [1]).
  - simpl. repeat constructor; lra.
  - simpl. repeat constructor; lra.
  - simpl. lra.
  - simpl. lra.
  - simpl. lra.
Defined.

Lemma GaussBern_core_maximum_witness :
  RooGaussBern.classify (RooGaussBern.unit_shape [] [] 0) = RooGaussBern.Core.
Proof.
  destruct (GaussBern_core_maximum (RooGaussBern.unit_shape [] [] 7))
    as [H _].
  - simpl. lra.
  - apply H; simpl; lra.
Defined.

Lemma GaussBern_continuous_witness :
  continuity_pt
    (fun w => RooGaussBern.evaluate
                (RooGaussBern.at_x (RooGaussBern.unit_shape [2; 3] [4] 0) w))
    (-3).
Proof.
  apply (GaussBern_continuous (RooGaussBern.unit_shape [2; 3] [4] 0));
    simpl; lra.
Defined.

Lemma GaussBern_regions_in_x_witness :
  RooGaussBern.classify (RooGaussBern.unit_shape [] [] 1.5)
  = RooGaussBern.RightTail.
Proof.
  apply (GaussBern_regions_in_x (RooGaussBern.unit_shape [] [] 1.5));
    simpl; lra.
Defined.

Lemma GaussBern_core_empty_witness :
  RooGaussBern.classify (RooGaussBern.mk 0 (-5) 5 0 1 (-2) 1 [] [])
  <> RooGaussBern.Core.
Proof.
  apply (GaussBern_core_empty (RooGaussBern.mk 0 (-5) 5 0 1 (-2) 1 [] [])).
  simpl. lra.
Defined.
